(** * useRouteQuery: a reactive value synchronised with one route query field

    A shallow embedding of [src/useRouteQuery.ts],
    [src/utils/areQueryValuesEqual.ts] and [src/utils/tryOnScopeDispose],
    and the properties of the synchronisation engine proved about it. *)

From Stdlib Require Import String List Bool Arith Lia.
From stdpp Require Import base option list gmap strings fin_maps.

Local Open Scope string_scope.
Local Open Scope list_scope.

(** ** Query values ([src/types/index.ts])

    vue-router's [LocationQueryValue] is [string | null];
    [LocationQueryValueRaw] adds [number] and [undefined], and
    [SetQueryValue] removes [number] again.  An element of a query array is
    therefore a string, [null] or [undefined]; a query value is one such
    scalar or an array of them.  [GetQueryValue] is the part of
    [SetQueryValue] without [undefined], so one type carries both.

    At run time one more kind of value reaches the code.  A query is a
    plain object, so a read [route.query[name]] of a name that is not a key
    of the query but is a member of [Object.prototype] gives that member: a
    function, or [Object.prototype] itself for ["__proto__"].  Each member
    is an object of its own, equal under [===] to itself only. *)

Inductive ObjectPrototypeMember : Type :=
  | P_constructor
  | P_defineGetter
  | P_defineSetter
  | P_hasOwnProperty
  | P_lookupGetter
  | P_lookupSetter
  | P_isPrototypeOf
  | P_propertyIsEnumerable
  | P_toString
  | P_valueOf
  | P_proto
  | P_toLocaleString.

(** The member of [Object.prototype] with the given name, if there is
    one. *)
Definition Object_prototype (name : string) : option ObjectPrototypeMember :=
  if String.eqb name "constructor" then Some P_constructor
  else if String.eqb name "__defineGetter__" then Some P_defineGetter
  else if String.eqb name "__defineSetter__" then Some P_defineSetter
  else if String.eqb name "hasOwnProperty" then Some P_hasOwnProperty
  else if String.eqb name "__lookupGetter__" then Some P_lookupGetter
  else if String.eqb name "__lookupSetter__" then Some P_lookupSetter
  else if String.eqb name "isPrototypeOf" then Some P_isPrototypeOf
  else if String.eqb name "propertyIsEnumerable"
       then Some P_propertyIsEnumerable
  else if String.eqb name "toString" then Some P_toString
  else if String.eqb name "valueOf" then Some P_valueOf
  else if String.eqb name "__proto__" then Some P_proto
  else if String.eqb name "toLocaleString" then Some P_toLocaleString
  else None.

(** Identity of two members. *)
Definition same_member (m m' : ObjectPrototypeMember) : bool :=
  match m, m' with
  | P_constructor, P_constructor => true
  | P_defineGetter, P_defineGetter => true
  | P_defineSetter, P_defineSetter => true
  | P_hasOwnProperty, P_hasOwnProperty => true
  | P_lookupGetter, P_lookupGetter => true
  | P_lookupSetter, P_lookupSetter => true
  | P_isPrototypeOf, P_isPrototypeOf => true
  | P_propertyIsEnumerable, P_propertyIsEnumerable => true
  | P_toString, P_toString => true
  | P_valueOf, P_valueOf => true
  | P_proto, P_proto => true
  | P_toLocaleString, P_toLocaleString => true
  | _, _ => false
  end.

Inductive QueryScalar : Type :=
  | QUndefined
  | QNull
  | QString (s : string)
  | QInherited (m : ObjectPrototypeMember).

Inductive QueryValue : Type :=
  | Scalar (v : QueryScalar)
  | Arr (l : list QueryScalar).

Definition q_undefined : QueryValue := Scalar QUndefined.
Definition q_null : QueryValue := Scalar QNull.
Definition q_string (s : string) : QueryValue := Scalar (QString s).

(** [x === y] on two scalars. *)
Definition strict_eq (x y : QueryScalar) : bool :=
  match x, y with
  | QUndefined, QUndefined => true
  | QNull, QNull => true
  | QString s, QString t => String.eqb s t
  | QInherited m, QInherited m' => same_member m m'
  | _, _ => false
  end.

(** [b[idx]]: reading past the end of an array gives [undefined]. *)
Definition index (b : list QueryScalar) (idx : nat) : QueryScalar :=
  nth idx b QUndefined.

(** [a.every((val, idx) => f(val, idx))], the callback applied from index
    [idx] on.  Arrays are dense: every index below the length holds an
    element. *)
Fixpoint every (f : QueryScalar -> nat -> bool) (a : list QueryScalar)
    (idx : nat) : bool :=
  match a with
  | [] => true
  | val :: rest => f val idx && every f rest (S idx)
  end.

(** ** The equality oracle ([src/utils/areQueryValuesEqual.ts])

    Two arrays are compared by length and then position by position.  In
    every other case the function returns [a === b]: the strict equality of
    two scalars, and [false] when exactly one side is an array. *)
Definition areQueryValuesEqual (a b : QueryValue) : bool :=
  match a, b with
  | Arr a, Arr b =>
      if negb (Nat.eqb (length a) (length b)) then false
      else every (fun val idx => strict_eq val (index b idx)) a 0
  | Scalar x, Scalar y => strict_eq x y
  | _, _ => false
  end.

(** ** Typed values

    The value type [T] of a synchroniser is any JavaScript type.  What the
    code needs from it is the value [undefined] and the test
    [v !== undefined]: the cache variable is declared [T | undefined]. *)
Class JsValue (T : Type) := {
  undefined : T;
  is_undefined : T -> bool;
  is_undefined_spec : forall v : T, is_undefined v = true <-> v = undefined
}.

Definition query_is_undefined (v : QueryValue) : bool :=
  match v with
  | Scalar QUndefined => true
  | _ => false
  end.

#[export] Instance QueryValue_JsValue : JsValue QueryValue.
Proof.
  refine {| undefined := q_undefined; is_undefined := query_is_undefined |}.
  intros [[| |s|m]|l]; unfold q_undefined; simpl; split; congruence.
Defined.

(** [MaybeRefOrGetter<T>]: a plain value, or a ref or getter that is read
    from the host's reactive state [Env] each time [toValue] is called. *)
Inductive MaybeRefOrGetter (Env T : Type) : Type :=
  | Plain (v : T)
  | Getter (g : Env -> T).
Arguments Plain {Env T} v.
Arguments Getter {Env T} g.

Definition toValue {Env T : Type} (env : Env) (d : MaybeRefOrGetter Env T) : T :=
  match d with
  | Plain v => v
  | Getter g => g env
  end.

(** ** JavaScript [Map<string, SetQueryValue>]

    The entries in insertion order, one per key. *)
Module JsMap.
Definition t : Type := list (string * QueryValue).

Definition empty : t := [].

(** [m.set(key, value)]: overwrite in place, or append a new entry. *)
Fixpoint set (key : string) (value : QueryValue) (m : t) : t :=
  match m with
  | [] => [(key, value)]
  | (k, v) :: rest =>
      if String.eqb k key then (key, value) :: rest
      else (k, v) :: set key value rest
  end.

(** [m.get(key)], with [None] for a key the map does not have. *)
Fixpoint get (key : string) (m : t) : option QueryValue :=
  match m with
  | [] => None
  | (k, v) :: rest => if String.eqb k key then Some v else get key rest
  end.

Definition size (m : t) : nat := length m.
Definition entries (m : t) : list (string * QueryValue) := m.
Definition keys (m : t) : list string := map fst m.
End JsMap.

(** ** Plain objects used as maps

    A query is a plain JavaScript object.  The map holds its own fields;
    its prototype is [Object.prototype]. *)

(** [name in obj]: an own field, or a member of the prototype. *)
Definition has_property (name : string) (obj : gmap string QueryValue)
    : bool :=
  match obj !! name with
  | Some _ => true
  | None =>
      match Object_prototype name with
      | Some _ => true
      | None => false
      end
  end.

(** [obj[name]]: the own field, else the member of the prototype, else
    [undefined]. *)
Definition get_property (name : string) (obj : gmap string QueryValue)
    : QueryValue :=
  match obj !! name with
  | Some v => v
  | None =>
      match Object_prototype name with
      | Some m => Scalar (QInherited m)
      | None => q_undefined
      end
  end.

(** [obj[key] = value], as far as the own fields go.  An own field is
    overwritten.  A new field is created for every other key but
    ["__proto__"]: that assignment runs the setter inherited from
    [Object.prototype], which replaces the prototype of [obj] when [value]
    is an array or [null] and creates no field in any case. *)
Definition assign (key : string) (value : QueryValue)
    (obj : gmap string QueryValue) : gmap string QueryValue :=
  match obj !! key with
  | Some _ => <[key := value]> obj
  | None =>
      if String.eqb key "__proto__" then obj else <[key := value]> obj
  end.

(** ** The router and its routes *)

Inductive Mode : Type := push | replace.

(** A reactive route object: the fields the code reads. *)
Record Route : Type := {
  params : list (string * string);
  query : gmap string QueryValue;
  hash : string
}.

(** The argument of [router.push] and [router.replace]; [to_query] holds
    the own fields of the query object that is passed. *)
Record RouteLocation : Type := {
  to_params : list (string * string);
  to_query : gmap string QueryValue;
  to_hash : string
}.

(** One call [router[mode](to)] on the router with the given identity. *)
Record RouterCall : Type := {
  call_router : nat;
  call_mode : Mode;
  call_to : RouteLocation
}.

(** The closure handed to [nextTick] by [set]: it captures the router (and
    with it the router's [queriesQueue]), the route and the mode of the
    synchroniser that scheduled it. *)
Record Flush : Type := {
  flush_router : nat;
  flush_route : nat;
  flush_mode : Mode
}.

(** The state shared by all synchronisers: the route objects and the
    module-level [_queue: WeakMap<Router, Map>], both keyed by object
    identity; the callbacks waiting for the next tick, oldest first; and
    the calls made on routers so far, oldest first.  [useRoute] and
    [useRouter] are the route and router the application injects. *)
Record World : Type := {
  routes : gmap nat Route;
  _queue : gmap nat JsMap.t;
  ticks : list Flush;
  calls : list RouterCall;
  useRoute : nat;
  useRouter : nat
}.

Definition empty_route : Route := {| params := []; query := ∅; hash := "" |}.

Definition route_of (w : World) (r : nat) : Route :=
  default empty_route (routes w !! r).

(** The [Map] that [_queue.get(router)!] refers to. *)
Definition queriesQueue (w : World) (router : nat) : JsMap.t :=
  default JsMap.empty (_queue w !! router).

Definition with_queue (router : nat) (m : JsMap.t) (w : World) : World :=
  {| routes := routes w; _queue := <[router := m]> (_queue w);
     ticks := ticks w; calls := calls w;
     useRoute := useRoute w; useRouter := useRouter w |}.

(** [nextTick(cb)]: callbacks run in the order they were handed over. *)
Definition nextTick (cb : Flush) (w : World) : World :=
  {| routes := routes w; _queue := _queue w;
     ticks := ticks w ++ [cb]; calls := calls w;
     useRoute := useRoute w; useRouter := useRouter w |}.

(** [router[mode](to)].  The router is a collaborator: the call is recorded,
    and what the router then does to a route reaches the synchronisers as
    an external change. *)
Definition router_call (router : nat) (mode : Mode) (to : RouteLocation)
    (w : World) : World :=
  {| routes := routes w; _queue := _queue w; ticks := ticks w;
     calls := calls w ++ [{| call_router := router; call_mode := mode;
                             call_to := to |}];
     useRoute := useRoute w; useRouter := useRouter w |}.

(** The calls made on one router. *)
Definition calls_on (router : nat) (w : World) : list RouterCall :=
  filter (fun c => call_router c = router) (calls w).

(** ** The deferred flush ([set], the callback given to [nextTick]) *)

(** [const newQueries = { ...query }; for (const [key, value] of
    queriesQueue.entries()) newQueries[key] = value]. *)
Definition overlay (entries : list (string * QueryValue))
    (query : gmap string QueryValue) : gmap string QueryValue :=
  fold_left (fun newQueries '(key, value) => assign key value newQueries)
            entries query.

Definition flush (cb : Flush) (w : World) : World :=
  let queue := queriesQueue w (flush_router cb) in
  if Nat.eqb (JsMap.size queue) 0 then w
  else
    let r := route_of w (flush_route cb) in
    let newQueries := overlay (JsMap.entries queue) (query r) in
    let w := with_queue (flush_router cb) JsMap.empty w in
    router_call (flush_router cb) (flush_mode cb)
      {| to_params := params r; to_query := newQueries; to_hash := hash r |} w.

(** The scheduler takes the waiting callbacks off its list. *)
Definition stop_ticks (w : World) : World :=
  {| routes := routes w; _queue := _queue w; ticks := []; calls := calls w;
     useRoute := useRoute w; useRouter := useRouter w |}.

(** One tick of the scheduler: every waiting callback runs, oldest first. *)
Definition run_tick (w : World) : World :=
  fold_left (fun w cb => flush cb w) (ticks w) (stop_ticks w).

(** Whether some callback of the list belongs to router [r] while writes
    are pending for [r]. *)
Definition commits (r : nat) (cbs : list Flush) (w : World) : bool :=
  existsb (fun cb => Nat.eqb (flush_router cb) r) cbs
  && negb (Nat.eqb (JsMap.size (queriesQueue w r)) 0).

(** ** The synchroniser ([useRouteQuery]) *)

Record RouteQueryTransform (T : Type) : Type := {
  transform_get : QueryValue -> T;
  transform_set : T -> QueryValue
}.
Arguments transform_get {T} _ _.
Arguments transform_set {T} _ _.

(** Without a [transform] option both directions are the identity cast
    ([v as T], [v as SetQueryValue]): [T] is then the query value type. *)
Definition identity_transform : RouteQueryTransform QueryValue :=
  {| transform_get := fun v => v; transform_set := fun v => v |}.

Record RouteQueryOptions (T : Type) : Type := {
  opt_mode : option Mode;
  opt_route : option nat;
  opt_router : option nat;
  opt_transform : RouteQueryTransform T
}.
Arguments opt_mode {T} _.
Arguments opt_route {T} _.
Arguments opt_router {T} _.
Arguments opt_transform {T} _.

(** The [const] bindings of one call of [useRouteQuery]. *)
Record Config (Env T : Type) : Type := {
  name : string;
  defaultValue : MaybeRefOrGetter Env T;
  mode : Mode;
  route : nat;
  router : nat;
  transformFromQuery : QueryValue -> T;
  transformToQuery : T -> QueryValue
}.
Arguments name {Env T} _.
Arguments defaultValue {Env T} _.
Arguments mode {Env T} _.
Arguments route {Env T} _.
Arguments router {Env T} _.
Arguments transformFromQuery {Env T} _ _.
Arguments transformToQuery {Env T} _ _.

(** The [let] bindings of one call, and what the host keeps for it:
    [triggers] counts the calls of the ref's [trigger]; [watching] tells
    whether the watcher on [route.query[name]] is running; [scoped] tells
    whether [tryOnScopeDispose] registered the reset callback, which it does
    exactly when the call was made inside an effect scope. *)
Record Cache (T : Type) : Type := {
  cachedValue : T;
  cachedRawValue : QueryValue;
  triggers : nat;
  watching : bool;
  scoped : bool
}.
Arguments cachedValue {T} _.
Arguments cachedRawValue {T} _.
Arguments triggers {T} _.
Arguments watching {T} _.
Arguments scoped {T} _.

(** [tryOnScopeDispose(fn)]: [onScopeDispose(fn)] and [true] when
    [getCurrentScope()] gives a scope, [false] and nothing else when not. *)
Definition tryOnScopeDispose (getCurrentScope : bool) : bool :=
  if getCurrentScope then true else false.

Section Synchroniser.
Context {Env T : Type} `{JsValue T}.

(** [_trigger()] / [trigger()]. *)
Definition trigger (st : Cache T) : Cache T :=
  {| cachedValue := cachedValue st; cachedRawValue := cachedRawValue st;
     triggers := S (triggers st); watching := watching st;
     scoped := scoped st |}.

Definition store (value : T) (raw : QueryValue) (st : Cache T) : Cache T :=
  {| cachedValue := value; cachedRawValue := raw;
     triggers := triggers st; watching := watching st;
     scoped := scoped st |}.

(** The body of [useRouteQuery] up to the creation of the ref and of the
    watcher. *)
Definition useRouteQuery (name : string)
    (defaultValue : MaybeRefOrGetter Env T) (options : RouteQueryOptions T)
    (getCurrentScope : bool) (w : World) : Config Env T * Cache T * World :=
  let mode := default push (opt_mode options) in
  let route := default (useRoute w) (opt_route options) in
  let router := default (useRouter w) (opt_router options) in
  let transformFromQuery := transform_get (opt_transform options) in
  let transformToQuery := transform_set (opt_transform options) in
  let w :=
    match _queue w !! router with
    | Some _ => w
    | None => with_queue router JsMap.empty w
    end in
  let '(cachedValue, cachedRawValue) :=
    if has_property name (query (route_of w route)) then
      let initialQueryValue := get_property name (query (route_of w route)) in
      (transformFromQuery initialQueryValue, initialQueryValue)
    else (undefined, q_undefined) in
  ({| name := name; defaultValue := defaultValue; mode := mode;
      route := route; router := router;
      transformFromQuery := transformFromQuery;
      transformToQuery := transformToQuery |},
   {| cachedValue := cachedValue; cachedRawValue := cachedRawValue;
      triggers := 0; watching := true;
      scoped := tryOnScopeDispose getCurrentScope |},
   w).

(** The callback given to [tryOnScopeDispose]. *)
Definition dispose (st : Cache T) : Cache T :=
  store undefined q_undefined st.

(** [proxy.get]; [track()] only registers the reader with the host. *)
Definition get (env : Env) (c : Config Env T) (st : Cache T) : T :=
  if negb (is_undefined (cachedValue st)) then cachedValue st
  else toValue env (defaultValue c).

(** [proxy.set]. *)
Definition set (c : Config Env T) (newValue : T) (s : Cache T * World)
    : Cache T * World :=
  let '(st, w) := s in
  let newQueryRawValue := transformToQuery c newValue in
  if areQueryValuesEqual newQueryRawValue (cachedRawValue st) then (st, w)
  else
    let st := store newValue newQueryRawValue st in
    let w := with_queue (router c)
               (JsMap.set (name c) newQueryRawValue
                  (queriesQueue w (router c))) w in
    let st := trigger st in
    let w := nextTick {| flush_router := router c; flush_route := route c;
                         flush_mode := mode c |} w in
    (st, w).

(** The callback of the watcher on [route.query[name]]. *)
Definition watch_callback (c : Config Env T) (newQueryString : QueryValue)
    (s : Cache T * World) : Cache T * World :=
  let '(st, w) := s in
  if areQueryValuesEqual newQueryString (cachedRawValue st) then (st, w)
  else
    let st :=
      if negb (query_is_undefined newQueryString)
      then store (transformFromQuery c newQueryString) newQueryString st
      else store undefined newQueryString st in
    (trigger st, w).

(** The host side of the watcher: a change of [route.query[name]] is
    delivered, synchronously, while the watcher runs. *)
Definition deliver (c : Config Env T) (newQueryString : QueryValue)
    (s : Cache T * World) : Cache T * World :=
  if watching (fst s) then watch_callback c newQueryString s else s.

(** The host side of scope teardown ([EffectScope.stop]): the watchers
    created in the scope are stopped and the callbacks registered with
    [onScopeDispose] run. *)
Definition scope_stop (st : Cache T) : Cache T :=
  if scoped st then
    dispose {| cachedValue := cachedValue st;
               cachedRawValue := cachedRawValue st;
               triggers := triggers st; watching := false;
               scoped := scoped st |}
  else st.
End Synchroniser.

(** ** Sample synchronisers

    A route with query [{ search: "vue3", tags: "vite" }], params
    [{ foo: "bar" }] and hash ["#hash"], injected together with router 0,
    and the synchronisers used as concrete instances below. *)
Module Sample.
Definition route0 : Route :=
  {| params := [("foo", "bar")];
     query := <["search" := q_string "vue3"]>
                (<["tags" := q_string "vite"]> ∅);
     hash := "#hash" |}.

Definition world0 : World :=
  {| routes := <[0 := route0]> ∅; _queue := ∅; ticks := []; calls := [];
     useRoute := 0; useRouter := 0 |}.

Definition options (mode : option Mode)
    (transform : RouteQueryTransform QueryValue)
    : RouteQueryOptions QueryValue :=
  {| opt_mode := mode; opt_route := None; opt_router := None;
     opt_transform := transform |}.

(** [{ get: (param) => (Array.isArray(param) ? param : [param]),
       set: (v) => v }]. *)
Definition toArray : RouteQueryTransform QueryValue :=
  {| transform_get := fun param =>
       match param with
       | Arr l => Arr l
       | Scalar v => Arr [v]
       end;
     transform_set := fun v => v |}.

(** [useRouteQuery("search", "default")]. *)
Definition search : Config unit QueryValue * Cache QueryValue * World :=
  useRouteQuery "search" (Plain (q_string "default"))
    (options None identity_transform) true world0.
Definition search_config : Config unit QueryValue := fst (fst search).
Definition search_cache : Cache QueryValue := snd (fst search).
Definition search_world : World := snd search.

(** [useRouteQuery("tags", [], { transform: toArray })]. *)
Definition tags : Config unit QueryValue * Cache QueryValue * World :=
  useRouteQuery "tags" (Plain (Arr [])) (options None toArray) true world0.
Definition tags_config : Config unit QueryValue := fst (fst tags).
Definition tags_cache : Cache QueryValue := snd (fst tags).
Definition tags_world : World := snd tags.

(** [a = useRouteQuery("a", "")] and then
    [b = useRouteQuery("b", "", { mode: "replace" })] on the same router. *)
Definition a : Config unit QueryValue * Cache QueryValue * World :=
  useRouteQuery "a" (Plain (q_string ""))
    (options None identity_transform) true world0.
Definition a_config : Config unit QueryValue := fst (fst a).
Definition a_cache : Cache QueryValue := snd (fst a).

Definition b : Config unit QueryValue * Cache QueryValue * World :=
  useRouteQuery "b" (Plain (q_string ""))
    (options (Some replace) identity_transform) true (snd a).
Definition b_config : Config unit QueryValue := fst (fst b).
Definition b_cache : Cache QueryValue := snd (fst b).
Definition world_ab : World := snd b.

(** [a.value = "1"; b.value = "2"], the worlds after each write. *)
Definition world_a1 : World :=
  snd (set a_config (q_string "1") (a_cache, world_ab)).
Definition world_a1_b2 : World :=
  snd (set b_config (q_string "2") (b_cache, world_a1)).
End Sample.

(** ** Sequences of writes and the state of the scheduler *)

(** The closure [set] hands to [nextTick] for a synchroniser. *)
Definition flush_of {Env T : Type} (c : Config Env T) : Flush :=
  {| flush_router := router c; flush_route := route c; flush_mode := mode c |}.

(** [ref.value = x] for each [x] of the list in turn, with no tick in
    between. *)
Definition writes {Env T : Type} `{JsValue T} (c : Config Env T)
    (xs : list T) (s : Cache T * World) : Cache T * World :=
  fold_left (fun s x => set c x s) xs s.

(** The state [s] is the state [(st0, w0)] after [n] accepted writes of the
    synchroniser [c] and no tick. *)
Definition written {Env T : Type} (c : Config Env T) (st0 : Cache T)
    (w0 : World) (n : nat) (s : Cache T * World) : Prop :=
  triggers (fst s) = triggers st0 + n /\
  ticks (snd s) = replicate n (flush_of c) /\
  calls (snd s) = calls w0 /\
  routes (snd s) = routes w0 /\
  (n = 0 -> s = (st0, w0)) /\
  (n <> 0 ->
     queriesQueue (snd s) (router c) = [(name c, cachedRawValue (fst s))]).

(** What every operation keeps true of the shared world: the keys of each
    pending map are distinct, and a router with pending writes has a
    callback waiting for the next tick. *)
Definition World_ok (w : World) : Prop :=
  forall r : nat,
    NoDup (JsMap.keys (queriesQueue w r)) /\
    (queriesQueue w r <> JsMap.empty ->
       exists cb : Flush, cb ∈ ticks w /\ flush_router cb = r).

(** ** More sample synchronisers

    [c = useRouteQuery("c", "", { router: router1 })], created after [a]
    and [b] on a second router, and [page], whose default is a getter over
    a host counter. *)
Module Scenario.
Definition c : Config unit QueryValue * Cache QueryValue * World :=
  useRouteQuery "c" (Plain (q_string ""))
    {| opt_mode := None; opt_route := None; opt_router := Some 1;
       opt_transform := identity_transform |} true Sample.world_ab.
Definition c_config : Config unit QueryValue := fst (fst c).
Definition c_cache : Cache QueryValue := snd (fst c).
Definition world_abc : World := snd c.

Definition page : Config nat QueryValue * Cache QueryValue * World :=
  useRouteQuery "page"
    (Getter (fun n : nat => if Nat.eqb n 0 then q_string "1" else q_string "2"))
    (Sample.options None identity_transform) false Sample.world0.
Definition page_config : Config nat QueryValue := fst (fst page).
Definition page_cache : Cache QueryValue := snd (fst page).

(** The world after [a.value = "1"] in which the host has meanwhile put
    another route object, with [search: "vite"], in place of route 0. *)
Definition world_a1_moved : World :=
  {| routes := <[0 := {| params := [("foo", "bar")];
                         query := <["search" := q_string "vite"]> ∅;
                         hash := "#moved" |}]> (routes Sample.world_a1);
     _queue := _queue Sample.world_a1; ticks := ticks Sample.world_a1;
     calls := calls Sample.world_a1;
     useRoute := useRoute Sample.world_a1;
     useRouter := useRouter Sample.world_a1 |}.
End Scenario.

(** ** Synchronisers named like members of [Object.prototype]

    [useRouteQuery("toString", "d")] on the sample route, whose query has
    no such key, and [useRouteQuery("__proto__", "")] followed by
    [useRouteQuery("b", "", { mode: "replace" })]. *)
Module Inherited.
Definition toString : Config unit QueryValue * Cache QueryValue * World :=
  useRouteQuery "toString" (Plain (q_string "d"))
    (Sample.options None identity_transform) true Sample.world0.
Definition toString_config : Config unit QueryValue := fst (fst toString).
Definition toString_cache : Cache QueryValue := snd (fst toString).
Definition toString_world : World := snd toString.

Definition proto : Config unit QueryValue * Cache QueryValue * World :=
  useRouteQuery "__proto__" (Plain (q_string ""))
    (Sample.options None identity_transform) true Sample.world0.
Definition proto_config : Config unit QueryValue := fst (fst proto).
Definition proto_cache : Cache QueryValue := snd (fst proto).

Definition b : Config unit QueryValue * Cache QueryValue * World :=
  useRouteQuery "b" (Plain (q_string ""))
    (Sample.options (Some replace) identity_transform) true (snd proto).
Definition b_config : Config unit QueryValue := fst (fst b).
Definition b_cache : Cache QueryValue := snd (fst b).
Definition world_pb : World := snd b.

(** [proto.value = "x"; b.value = "2"]. *)
Definition world_px_b2 : World :=
  snd (set b_config (q_string "2")
         (b_cache, snd (set proto_config (q_string "x")
                          (proto_cache, world_pb)))).
End Inherited.

(** * Properties *)

(** ** The equality oracle *)

Lemma same_member_spec (m m' : ObjectPrototypeMember) :
  same_member m m' = true <-> m = m'.
Proof. destruct m, m'; simpl; split; congruence. Qed.

Lemma strict_eq_spec (x y : QueryScalar) : strict_eq x y = true <-> x = y.
Proof.
  destruct x as [| |s|m], y as [| |t|m']; simpl; split; try congruence;
    try done.
  - intros H. apply String.eqb_eq in H. by subst.
  - intros [= ->]. apply String.eqb_refl.
  - intros H. apply same_member_spec in H. by subst.
  - intros [= ->]. by apply same_member_spec.
Qed.

Lemma index_app_length (pre : list QueryScalar) (y : QueryScalar)
    (b : list QueryScalar) :
  index (pre ++ y :: b) (length pre) = y.
Proof.
  unfold index. induction pre as [|p pre IH]; simpl; [done | apply IH].
Qed.

(** The positional comparison of [a] against the tail of a longer array
    that starts at the current index decides equality of [a] and that
    tail. *)
Lemma every_spec (a : list QueryScalar) :
  forall (pre b : list QueryScalar),
    length a = length b ->
    every (fun val idx => strict_eq val (index (pre ++ b) idx)) a (length pre)
      = true <-> a = b.
Proof.
  induction a as [|x a IH]; intros pre [|y b] Hlen; simpl in *; try done.
  rewrite index_app_length, andb_true_iff, strict_eq_spec.
  specialize (IH (pre ++ [y]) b).
  rewrite <- app_assoc in IH. simpl in IH.
  rewrite length_app in IH. simpl in IH.
  replace (length pre + 1) with (S (length pre)) in IH by lia.
  rewrite IH by lia.
  split; [intros [-> ->]; done | intros [= -> ->]; done].
Qed.

(** The oracle decides structural equality of query values. *)
Lemma areQueryValuesEqual_spec (a b : QueryValue) :
  areQueryValuesEqual a b = true <-> a = b.
Proof.
  destruct a as [x|a], b as [y|b]; simpl; try (split; congruence).
  - rewrite strict_eq_spec. split; congruence.
  - destruct (Nat.eqb_spec (length a) (length b)) as [Hlen|Hlen]; simpl.
    + rewrite (every_spec a [] b Hlen). split; congruence.
    + split; [done | intros [= ->]; done].
Qed.

Lemma areQueryValuesEqual_refl (a : QueryValue) : areQueryValuesEqual a a = true.
Proof. by apply areQueryValuesEqual_spec. Qed.

Lemma areQueryValuesEqual_false (a b : QueryValue) :
  areQueryValuesEqual a b = false <-> a <> b.
Proof.
  rewrite <- areQueryValuesEqual_spec. destruct (areQueryValuesEqual a b); split; congruence.
Qed.

(** C4. The equality oracle is symmetric; two arrays of different length
    are never equal; [undefined] equals [undefined]; [undefined] does not
    equal the empty string; and an array never equals a value that is not
    an array. *)
Theorem equality_oracle :
  (forall a b, areQueryValuesEqual a b = areQueryValuesEqual b a) /\
  (forall la lb, length la <> length lb ->
     areQueryValuesEqual (Arr la) (Arr lb) = false) /\
  areQueryValuesEqual q_undefined q_undefined = true /\
  areQueryValuesEqual q_undefined (q_string "") = false /\
  (forall l x, areQueryValuesEqual (Arr l) (Scalar x) = false /\
               areQueryValuesEqual (Scalar x) (Arr l) = false).
Proof.
  repeat split; try done.
  - intros a b. apply eq_true_iff_eq.
    rewrite !areQueryValuesEqual_spec. split; congruence.
  - intros la lb Hlen. simpl.
    by destruct (Nat.eqb_spec (length la) (length lb)).
Qed.

Lemma equality_oracle_witness :
  length [QString "a"; QString "b"] <> length [QString "a"] /\
  areQueryValuesEqual (Arr [QString "a"; QString "b"]) (Arr [QString "a"]) = false.
Proof.
  split; [simpl; lia |].
  apply (proj1 (proj2 equality_oracle)). simpl; lia.
Defined.

(** ** The pending-write map and the world *)

Lemma JsMap_size_set (key : string) (value : QueryValue) (m : JsMap.t) :
  JsMap.size (JsMap.set key value m) <= S (JsMap.size m).
Proof.
  unfold JsMap.size. induction m as [|[k v] m IH]; simpl; [lia |].
  destruct (String.eqb k key); simpl; lia.
Qed.

Lemma JsMap_keys_set (key : string) (value : QueryValue) (m : JsMap.t)
    (k : string) :
  k ∈ JsMap.keys (JsMap.set key value m) <-> k = key \/ k ∈ JsMap.keys m.
Proof.
  unfold JsMap.keys. induction m as [|[k0 v0] m IH]; simpl.
  - rewrite elem_of_cons, elem_of_nil. tauto.
  - destruct (String.eqb_spec k0 key) as [->|Hne]; simpl.
    + rewrite !elem_of_cons. tauto.
    + rewrite !elem_of_cons, IH. tauto.
Qed.

(** [m.set] keeps the keys of the map distinct. *)
Lemma JsMap_set_NoDup (key : string) (value : QueryValue) (m : JsMap.t) :
  NoDup (JsMap.keys m) -> NoDup (JsMap.keys (JsMap.set key value m)).
Proof.
  induction m as [|[k0 v0] m IH]; simpl.
  - intros _. apply NoDup_singleton.
  - rewrite NoDup_cons. intros [Hk0 Hm].
    destruct (String.eqb_spec k0 key) as [->|Hne]; simpl.
    + by apply NoDup_cons.
    + apply NoDup_cons. split; [|by apply IH].
      fold (JsMap.keys (JsMap.set key value m)). rewrite JsMap_keys_set.
      intros [->|Hin]; [done | by apply Hk0].
Qed.

Lemma JsMap_get_None (k : string) (m : JsMap.t) :
  k ∉ JsMap.keys m -> JsMap.get k m = None.
Proof.
  unfold JsMap.keys. induction m as [|[k0 v0] m IH]; simpl; [done |].
  rewrite not_elem_of_cons. intros [Hne Hin].
  destruct (String.eqb_spec k0 k) as [->|_]; [done | by apply IH].
Qed.

(** Assignment to a field of a plain object. *)
Lemma assign_plain (key : string) (v : QueryValue)
    (q : gmap string QueryValue) :
  key <> "__proto__" -> assign key v q = <[key := v]> q.
Proof.
  intros Hne. unfold assign. destruct (q !! key); [done |].
  by destruct (String.eqb_spec key "__proto__").
Qed.

Lemma assign_own (key : string) (v : QueryValue)
    (q : gmap string QueryValue) :
  is_Some (q !! key) -> assign key v q = <[key := v]> q.
Proof. intros [v0 Hv0]. unfold assign. by rewrite Hv0. Qed.

Lemma assign_proto_absent (v : QueryValue) (q : gmap string QueryValue) :
  q !! "__proto__" = None -> assign "__proto__" v q = q.
Proof. intros Hq. unfold assign. by rewrite Hq. Qed.

Lemma assign_lookup_ne (key : string) (v : QueryValue)
    (q : gmap string QueryValue) (k : string) :
  key <> k -> assign key v q !! k = q !! k.
Proof.
  intros Hne. unfold assign.
  destruct (q !! key); [by apply lookup_insert_ne |].
  destruct (String.eqb key "__proto__"); [done | by apply lookup_insert_ne].
Qed.

Lemma assign_assign (key : string) (v v' : QueryValue)
    (q : gmap string QueryValue) :
  assign key v' (assign key v q) = assign key v' q.
Proof.
  unfold assign at 2. destruct (q !! key) eqn:Hq.
  - rewrite (assign_own key v'); [| by rewrite lookup_insert_eq].
    rewrite (assign_own key v' q) by (by rewrite Hq).
    apply insert_insert_eq.
  - destruct (String.eqb_spec key "__proto__") as [->|Hne]; [done |].
    rewrite (assign_own key v') by (by rewrite lookup_insert_eq).
    rewrite (assign_plain key v' q) by done. apply insert_insert_eq.
Qed.

(** Laying the entries of a map over a query: a key of the map other than
    ["__proto__"] gets the map's value, and every other such key keeps the
    query's. *)
Lemma overlay_lookup (m : JsMap.t) :
  forall (q : gmap string QueryValue) (k : string),
    NoDup (JsMap.keys m) ->
    k <> "__proto__" ->
    overlay (JsMap.entries m) q !! k =
      match JsMap.get k m with
      | Some v => Some v
      | None => q !! k
      end.
Proof.
  unfold overlay, JsMap.entries.
  induction m as [|[k0 v0] m IH]; intros q k Hnd Hk; simpl; [done |].
  simpl in Hnd. apply NoDup_cons in Hnd as [Hk0 Hm].
  rewrite IH by done.
  destruct (String.eqb_spec k0 k) as [->|Hne].
  - rewrite (JsMap_get_None k m Hk0), assign_plain by done.
    apply lookup_insert_eq.
  - destruct (JsMap.get k m); [done | by apply assign_lookup_ne].
Qed.

(** No pending entry gives a query without the key ["__proto__"] such a
    field. *)
Lemma overlay_proto_absent (m : JsMap.t) :
  forall q : gmap string QueryValue,
    q !! "__proto__" = None ->
    overlay (JsMap.entries m) q !! "__proto__" = None.
Proof.
  unfold overlay, JsMap.entries.
  induction m as [|[k0 v0] m IH]; intros q Hq; simpl; [done |].
  apply IH. destruct (String.eqb_spec k0 "__proto__") as [->|Hne].
  - by rewrite assign_proto_absent.
  - by rewrite assign_lookup_ne.
Qed.

Lemma queriesQueue_with_queue (r : nat) (m : JsMap.t) (w : World) :
  queriesQueue (with_queue r m w) r = m.
Proof. unfold queriesQueue, with_queue. simpl. by rewrite lookup_insert_eq. Qed.

Lemma queriesQueue_with_queue_ne (r r' : nat) (m : JsMap.t) (w : World) :
  r <> r' -> queriesQueue (with_queue r m w) r' = queriesQueue w r'.
Proof.
  intros Hne. unfold queriesQueue, with_queue. simpl.
  by rewrite lookup_insert_ne.
Qed.

Lemma route_of_with_queue (r : nat) (m : JsMap.t) (w : World) (i : nat) :
  route_of (with_queue r m w) i = route_of w i.
Proof. done. Qed.

(** ** Reading and writing through one synchroniser *)

Section SynchroniserFacts.
Context {Env T : Type} `{JsValue T}.
Implicit Types (c : Config Env T) (st : Cache T) (w : World) (x : T).

Lemma is_undefined_undefined : is_undefined (undefined : T) = true.
Proof. by apply is_undefined_spec. Qed.

Lemma is_undefined_false x : x <> undefined -> is_undefined x = false.
Proof.
  intros Hx. destruct (is_undefined x) eqn:E; [|done].
  by apply is_undefined_spec in E.
Qed.

Lemma get_cached env c st :
  cachedValue st <> undefined -> get env c st = cachedValue st.
Proof. intros Hx. unfold get. by rewrite is_undefined_false. Qed.

Lemma get_default env c st :
  cachedValue st = undefined -> get env c st = toValue env (defaultValue c).
Proof. intros Hx. unfold get. by rewrite Hx, is_undefined_undefined. Qed.

(** A write whose raw value equals the cached raw value changes nothing. *)
Lemma set_equal c x st w :
  areQueryValuesEqual (transformToQuery c x) (cachedRawValue st) = true ->
  set c x (st, w) = (st, w).
Proof. intros Heq. unfold set. by rewrite Heq. Qed.

(** Any other write stores the pair, enqueues, notifies and schedules. *)
Lemma set_changed c x st w :
  areQueryValuesEqual (transformToQuery c x) (cachedRawValue st) = false ->
  set c x (st, w) =
    (trigger (store x (transformToQuery c x) st),
     nextTick {| flush_router := router c; flush_route := route c;
                 flush_mode := mode c |}
       (with_queue (router c)
          (JsMap.set (name c) (transformToQuery c x)
             (queriesQueue w (router c))) w)).
Proof. intros Hne. unfold set. by rewrite Hne. Qed.

(** No write makes a router call or changes a route. *)
Lemma set_calls c x st w : calls (snd (set c x (st, w))) = calls w.
Proof. unfold set. by destruct (areQueryValuesEqual _ _). Qed.

Lemma set_routes c x st w : routes (snd (set c x (st, w))) = routes w.
Proof. unfold set. by destruct (areQueryValuesEqual _ _). Qed.

Lemma set_route_of c x st w i :
  route_of (snd (set c x (st, w))) i = route_of w i.
Proof. unfold route_of. by rewrite set_routes. Qed.

(** C1. A write whose raw value equals the cached raw value leaves the
    cache, the notification count, the pending-write map and the scheduled
    callbacks as they were.  Hence writing the same value twice in a row
    gives the state the first write gave: together the two writes notify
    at most once, put at most one entry into the pending-write map and
    schedule at most one callback. *)
Theorem write_noop_gate c x st w :
  (areQueryValuesEqual (transformToQuery c x) (cachedRawValue st) = true ->
     set c x (st, w) = (st, w)) /\
  (let s1 := set c x (st, w) in
   set c x s1 = s1 /\
   triggers (fst s1) <= S (triggers st) /\
   JsMap.size (queriesQueue (snd s1) (router c))
     <= S (JsMap.size (queriesQueue w (router c))) /\
   length (ticks (snd s1)) <= S (length (ticks w))).
Proof.
  split; [apply set_equal |]. cbv zeta.
  destruct (areQueryValuesEqual (transformToQuery c x) (cachedRawValue st))
    eqn:Egate.
  - rewrite !(set_equal _ _ _ _ Egate). cbn [fst snd]. repeat split; lia.
  - rewrite (set_changed _ _ _ _ Egate). cbn [fst snd]. repeat split.
    + apply set_equal. simpl. apply areQueryValuesEqual_refl.
    + simpl. lia.
    + unfold nextTick, queriesQueue at 1. simpl.
      rewrite lookup_insert_eq. simpl. apply JsMap_size_set.
    + simpl. rewrite length_app. simpl. lia.
Qed.

(** C2 (amended). After a write that passes the equality gate with a value
    other than [undefined], [get] returns that very value, while no call
    has been made on a router and no route has changed: the flush is still
    waiting.  A write stopped by the gate leaves [get] as it was, and an
    accepted write of [undefined] makes [get] return the default. *)
Theorem read_after_write c x st w env :
  let s1 := set c x (st, w) in
  (areQueryValuesEqual (transformToQuery c x) (cachedRawValue st) = false ->
   x <> undefined ->
     get env c (fst s1) = x /\
     calls (snd s1) = calls w /\ routes (snd s1) = routes w /\
     ticks (snd s1) =
       ticks w ++ [{| flush_router := router c; flush_route := route c;
                      flush_mode := mode c |}]) /\
  (areQueryValuesEqual (transformToQuery c x) (cachedRawValue st) = true ->
     get env c (fst s1) = get env c st) /\
  (areQueryValuesEqual (transformToQuery c x) (cachedRawValue st) = false ->
   x = undefined ->
     get env c (fst s1) = toValue env (defaultValue c)).
Proof.
  cbv zeta. split; [|split].
  - intros Hne Hx. rewrite (set_changed _ _ _ _ Hne). simpl.
    split; [by apply get_cached | done].
  - intros Heq. by rewrite (set_equal _ _ _ _ Heq).
  - intros Hne ->. rewrite (set_changed _ _ _ _ Hne). simpl.
    by apply get_default.
Qed.
End SynchroniserFacts.

(** ** External changes, disposal and the unset cache *)

Section ReactionFacts.
Context {Env T : Type} `{JsValue T}.
Implicit Types (c : Config Env T) (st : Cache T) (w : World) (x : T).

Lemma watch_callback_equal c v st w :
  areQueryValuesEqual v (cachedRawValue st) = true ->
  watch_callback c v (st, w) = (st, w).
Proof. intros Heq. unfold watch_callback. by rewrite Heq. Qed.

Lemma watch_callback_changed c v st w :
  areQueryValuesEqual v (cachedRawValue st) = false ->
  watch_callback c v (st, w) =
    (trigger (store (if query_is_undefined v then undefined
                     else transformFromQuery c v) v st), w).
Proof.
  intros Hne. unfold watch_callback. rewrite Hne.
  by destruct (query_is_undefined v).
Qed.

(** C5. The reaction to an external change returns the shared world as it
    received it: the pending-write maps, the scheduled callbacks and the
    router calls are untouched, and the next tick makes the calls it would
    have made anyway.  With an equal value the cache is untouched too;
    otherwise the raw value is cached, the typed value is the transformed
    one (or unset for [undefined]) and one notification is fired. *)
Theorem external_change_never_enqueues c v st w :
  let s1 := watch_callback c v (st, w) in
  snd s1 = w /\
  _queue (snd s1) = _queue w /\
  ticks (snd s1) = ticks w /\
  calls (snd s1) = calls w /\
  calls (run_tick (snd s1)) = calls (run_tick w) /\
  (areQueryValuesEqual v (cachedRawValue st) = true -> fst s1 = st) /\
  (areQueryValuesEqual v (cachedRawValue st) = false ->
     cachedRawValue (fst s1) = v /\
     cachedValue (fst s1) =
       (if query_is_undefined v then undefined
        else transformFromQuery c v) /\
     triggers (fst s1) = S (triggers st)).
Proof.
  cbv zeta.
  destruct (areQueryValuesEqual v (cachedRawValue st)) eqn:Egate.
  - rewrite (watch_callback_equal _ _ _ _ Egate). by repeat split.
  - rewrite (watch_callback_changed _ _ _ _ Egate). by repeat split.
Qed.

Lemma deliver_stopped c v st w :
  watching st = false -> deliver c v (st, w) = (st, w).
Proof. intros Hw. unfold deliver. simpl. by rewrite Hw. Qed.

Lemma deliver_all_stopped c (vs : list QueryValue) st w :
  watching st = false ->
  fold_left (fun s v => deliver c v s) vs (st, w) = (st, w).
Proof.
  intros Hw. induction vs as [|v vs IH]; simpl; [done |].
  by rewrite deliver_stopped.
Qed.

Lemma scope_stop_scoped st :
  scoped st = true ->
  scope_stop st =
    dispose {| cachedValue := cachedValue st;
               cachedRawValue := cachedRawValue st;
               triggers := triggers st; watching := false;
               scoped := scoped st |}.
Proof. intros Hsc. unfold scope_stop. by rewrite Hsc. Qed.

(** C8 (amended). Tearing down the scope of a synchroniser resets the cached
    typed value to [undefined] and the cached raw value to [undefined], so
    that [get] returns the default, evaluated at the time of the read,
    whatever was cached before.  External changes of the field, however
    many, then leave the instance as it is, with no notification and [get]
    still returning the default: the host has stopped the watcher together
    with the scope.  The reset itself closes nothing.  The watcher
    callback, were it still called with a value other than [undefined],
    would cache it and notify; and a later write whose raw form is not
    [undefined] is accepted, notified and scheduled like a first write and
    is what [get] returns from then on, while a write whose raw form is
    [undefined] does nothing. *)
Theorem disposal c st :
  scoped st = true ->
  let st' := scope_stop st in
  cachedValue st' = undefined /\
  cachedRawValue st' = q_undefined /\
  (forall env, get env c st' = toValue env (defaultValue c)) /\
  (forall (vs : list QueryValue) w,
     let s := fold_left (fun s v => deliver c v s) vs (st', w) in
     s = (st', w) /\
     triggers (fst s) = triggers st /\
     forall env, get env c (fst s) = toValue env (defaultValue c)) /\
  (forall (v : QueryValue) w,
     v <> q_undefined ->
     cachedRawValue (fst (watch_callback c v (st', w))) = v /\
     triggers (fst (watch_callback c v (st', w))) = S (triggers st)) /\
  (forall x w,
     transformToQuery c x <> q_undefined ->
     let s := set c x (st', w) in
     cachedValue (fst s) = x /\
     (x <> undefined -> forall env, get env c (fst s) = x) /\
     triggers (fst s) = S (triggers st) /\
     ticks (snd s) =
       ticks w ++ [{| flush_router := router c; flush_route := route c;
                      flush_mode := mode c |}]) /\
  (forall x w,
     transformToQuery c x = q_undefined -> set c x (st', w) = (st', w)).
Proof.
  intros Hsc. cbv zeta. rewrite (scope_stop_scoped st Hsc).
  set (st' := dispose _).
  assert (Hget : forall env, get env c st' = toValue env (defaultValue c)).
  { intros env. by apply get_default. }
  split; [done |]. split; [done |]. split; [exact Hget |].
  split; [|split; [|split]].
  - intros vs w. cbv zeta. by rewrite deliver_all_stopped.
  - intros v w Hv.
    assert (Hgate : areQueryValuesEqual v (cachedRawValue st') = false)
      by (by apply areQueryValuesEqual_false).
    by rewrite (watch_callback_changed _ _ _ _ Hgate).
  - intros x w Hraw. cbv zeta.
    assert (Hgate : areQueryValuesEqual (transformToQuery c x)
                      (cachedRawValue st') = false)
      by (by apply areQueryValuesEqual_false).
    rewrite (set_changed _ _ _ _ Hgate). cbn [fst snd].
    split; [done |]. split; [|done].
    intros Hx env. by apply get_cached.
  - intros x w Hraw. apply set_equal. simpl. rewrite Hraw.
    apply areQueryValuesEqual_refl.
Qed.
End ReactionFacts.

(** ** The deferred flush *)

Lemma flush_empty (cb : Flush) (w : World) :
  queriesQueue w (flush_router cb) = JsMap.empty -> flush cb w = w.
Proof. intros Hq. unfold flush. by rewrite Hq. Qed.

Lemma flush_pending (cb : Flush) (w : World) :
  queriesQueue w (flush_router cb) <> JsMap.empty ->
  flush cb w =
    router_call (flush_router cb) (flush_mode cb)
      {| to_params := params (route_of w (flush_route cb));
         to_query := overlay (JsMap.entries (queriesQueue w (flush_router cb)))
                       (query (route_of w (flush_route cb)));
         to_hash := hash (route_of w (flush_route cb)) |}
      (with_queue (flush_router cb) JsMap.empty w).
Proof.
  intros Hq. unfold flush.
  destruct (queriesQueue w (flush_router cb)) as [|e m]; [done |]. done.
Qed.

Lemma queriesQueue_router_call r m to w r' :
  queriesQueue (router_call r m to w) r' = queriesQueue w r'.
Proof. done. Qed.

(** Once the map of a router is empty, the remaining callbacks of that
    router do nothing. *)
Lemma flush_all_empty (r : nat) (cbs : list Flush) (w : World) :
  Forall (fun cb => flush_router cb = r) cbs ->
  queriesQueue w r = JsMap.empty ->
  fold_left (fun w cb => flush cb w) cbs w = w.
Proof.
  intros Hall Hq. induction Hall as [|cb cbs Hcb _ IH]; simpl; [done |].
  rewrite flush_empty by (by rewrite Hcb). apply IH.
Qed.

(** A tick whose callbacks all belong to one router with pending writes:
    the first callback makes the only call, with its own mode and route. *)
Lemma run_tick_one_router (w : World) (cb : Flush) (cbs : list Flush) :
  ticks w = cb :: cbs ->
  Forall (fun g => flush_router g = flush_router cb) cbs ->
  queriesQueue w (flush_router cb) <> JsMap.empty ->
  run_tick w =
    router_call (flush_router cb) (flush_mode cb)
      {| to_params := params (route_of w (flush_route cb));
         to_query := overlay (JsMap.entries (queriesQueue w (flush_router cb)))
                       (query (route_of w (flush_route cb)));
         to_hash := hash (route_of w (flush_route cb)) |}
      (with_queue (flush_router cb) JsMap.empty (stop_ticks w)).
Proof.
  intros Hticks Hall Hq. unfold run_tick. rewrite Hticks. simpl.
  fold (stop_ticks w). rewrite flush_pending by done.
  apply (flush_all_empty (flush_router cb)); [done |].
  rewrite queriesQueue_router_call. apply queriesQueue_with_queue.
Qed.

Lemma overlay_set_set (na nb : string) (ra rb : QueryValue)
    (q : gmap string QueryValue) :
  overlay (JsMap.entries (JsMap.set nb rb (JsMap.set na ra JsMap.empty))) q
    = assign nb rb (assign na ra q).
Proof.
  unfold overlay, JsMap.entries. simpl.
  destruct (String.eqb_spec na nb) as [->|Hne]; simpl; [|done].
  by rewrite assign_assign.
Qed.

(** Two synchronisers on one router, both writing a changed value while
    nothing is pending for that router: the state after the next tick. *)
Lemma two_writes_tick {Env TA TB : Type} `{JsValue TA} `{JsValue TB}
    (a : Config Env TA) (b : Config Env TB) (sa : Cache TA) (sb : Cache TB)
    (w : World) (xa : TA) (xb : TB) :
  router a = router b ->
  ticks w = [] ->
  queriesQueue w (router a) = JsMap.empty ->
  areQueryValuesEqual (transformToQuery a xa) (cachedRawValue sa) = false ->
  areQueryValuesEqual (transformToQuery b xb) (cachedRawValue sb) = false ->
  let w1 := snd (set a xa (sa, w)) in
  let w2 := snd (set b xb (sb, w1)) in
  ticks w2 = [ {| flush_router := router a; flush_route := route a;
                  flush_mode := mode a |};
               {| flush_router := router b; flush_route := route b;
                  flush_mode := mode b |} ] /\
  queriesQueue w2 (router a) =
    JsMap.set (name b) (transformToQuery b xb)
      (JsMap.set (name a) (transformToQuery a xa) JsMap.empty) /\
  run_tick w2 =
    router_call (router a) (mode a)
      {| to_params := params (route_of w (route a));
         to_query := assign (name b) (transformToQuery b xb)
                       (assign (name a) (transformToQuery a xa)
                          (query (route_of w (route a))));
         to_hash := hash (route_of w (route a)) |}
      (with_queue (router a) JsMap.empty (stop_ticks w2)).
Proof.
  intros Hr Ht Hq Ha Hb. cbv zeta.
  rewrite (set_changed _ _ _ _ Ha). cbn [snd].
  rewrite (set_changed _ _ _ _ Hb). cbn [snd].
  rewrite <- Hr, Hq.
  set (w2 := nextTick _ (with_queue _ _ (nextTick _ _))).
  assert (Hticks : ticks w2 =
    [ {| flush_router := router a; flush_route := route a;
         flush_mode := mode a |};
      {| flush_router := router a; flush_route := route b;
         flush_mode := mode b |} ]).
  { subst w2. simpl. by rewrite Ht. }
  assert (Hqueue : queriesQueue w2 (router a) =
    JsMap.set (name b) (transformToQuery b xb)
      (JsMap.set (name a) (transformToQuery a xa) JsMap.empty)).
  { subst w2. unfold nextTick, queriesQueue at 1. simpl.
    rewrite lookup_insert_eq. simpl.
    unfold queriesQueue. simpl. by rewrite lookup_insert_eq. }
  split; [done |]. split; [done |].
  rewrite (run_tick_one_router w2 _ _ Hticks); simpl.
  - rewrite Hqueue, overlay_set_set. done.
  - by repeat constructor.
  - rewrite Hqueue. simpl.
    destruct (String.eqb (name a) (name b)); done.
Qed.

Lemma calls_on_router_call (r r' : nat) (m : Mode) (to : RouteLocation)
    (w : World) :
  calls_on r (router_call r' m to w) =
    calls_on r w ++
      (if decide (r' = r)
       then [{| call_router := r'; call_mode := m; call_to := to |}]
       else []).
Proof.
  unfold calls_on, router_call. simpl. by rewrite filter_app.
Qed.

Lemma flush_other_queue (cb : Flush) (w : World) (r : nat) :
  flush_router cb <> r -> queriesQueue (flush cb w) r = queriesQueue w r.
Proof.
  intros Hne. unfold flush.
  destruct (Nat.eqb (JsMap.size (queriesQueue w (flush_router cb))) 0);
    [done |].
  rewrite queriesQueue_router_call. by apply queriesQueue_with_queue_ne.
Qed.

Lemma flush_other_calls (cb : Flush) (w : World) (r : nat) :
  flush_router cb <> r -> calls_on r (flush cb w) = calls_on r w.
Proof.
  intros Hne. unfold flush.
  destruct (Nat.eqb (JsMap.size (queriesQueue w (flush_router cb))) 0);
    [done |].
  rewrite calls_on_router_call. destruct (decide (flush_router cb = r)); [done |].
  by rewrite app_nil_r.
Qed.

Lemma flush_ticks (cb : Flush) (w : World) : ticks (flush cb w) = ticks w.
Proof.
  unfold flush.
  by destruct (Nat.eqb (JsMap.size (queriesQueue w (flush_router cb))) 0).
Qed.

Lemma flush_all_ticks (cbs : list Flush) (w : World) :
  ticks (fold_left (fun w cb => flush cb w) cbs w) = ticks w.
Proof.
  revert w. induction cbs as [|cb cbs IH]; intros w; simpl; [done |].
  by rewrite IH, flush_ticks.
Qed.

(** Running a list of callbacks makes one call on router [r] when
    [commits] holds and none when it does not. *)
Lemma flush_all_calls_on (r : nat) (cbs : list Flush) :
  forall w : World,
    length (calls_on r (fold_left (fun w cb => flush cb w) cbs w)) =
      length (calls_on r w) + (if commits r cbs w then 1 else 0).
Proof.
  unfold commits.
  induction cbs as [|cb cbs IH]; intros w; simpl; [lia |].
  rewrite IH. destruct (Nat.eqb_spec (flush_router cb) r) as [Heq|Hne].
  - (* a callback of [r] *)
    destruct (queriesQueue w r) as [|e m] eqn:Hq.
    + rewrite flush_empty by (by rewrite Heq). rewrite Hq. simpl.
      by rewrite andb_false_r.
    + rewrite flush_pending by (rewrite Heq, Hq; done).
      rewrite queriesQueue_router_call, calls_on_router_call.
      rewrite Heq, queriesQueue_with_queue. simpl.
      rewrite andb_false_r, length_app.
      destruct (decide (r = r)); [|done].
      change (calls_on r (with_queue r JsMap.empty w)) with (calls_on r w).
      simpl. lia.
  - (* a callback of another router *)
    by rewrite flush_other_queue, flush_other_calls.
Qed.

(** ** Coalescing, scheduling and the mode of the commit *)

(** X15. A flush that finds writes pending makes one router call on a
    world in which the router's pending map is already empty; for every key
    other than ["__proto__"] the query of the call has the pending map's
    value if the key is pending and the value the route has at that time if
    not.  So when two synchronisers whose names are not ["__proto__"] share
    a router for which nothing is pending, and each writes a changed value
    before the next tick, the tick makes exactly one router call: the name
    written last holds its value, the other name holds its value too, every
    other key is as in the route, and params and hash are the route's.  The
    pending map is empty after the tick. *)
Theorem coalescing {Env TA TB : Type} `{JsValue TA} `{JsValue TB}
    (a : Config Env TA) (b : Config Env TB) (sa : Cache TA) (sb : Cache TB)
    (w : World) (xa : TA) (xb : TB) :
  (forall (w0 : World) (cb : Flush),
     NoDup (JsMap.keys (queriesQueue w0 (flush_router cb))) ->
     queriesQueue w0 (flush_router cb) <> JsMap.empty ->
     exists to : RouteLocation,
       flush cb w0 =
         router_call (flush_router cb) (flush_mode cb) to
           (with_queue (flush_router cb) JsMap.empty w0) /\
       forall k : string,
         k <> "__proto__" ->
         to_query to !! k =
           match JsMap.get k (queriesQueue w0 (flush_router cb)) with
           | Some v => Some v
           | None => query (route_of w0 (flush_route cb)) !! k
           end) /\
  (router a = router b ->
   name a <> "__proto__" ->
   name b <> "__proto__" ->
   ticks w = [] ->
   queriesQueue w (router a) = JsMap.empty ->
   areQueryValuesEqual (transformToQuery a xa) (cachedRawValue sa) = false ->
   areQueryValuesEqual (transformToQuery b xb) (cachedRawValue sb) = false ->
   let w1 := snd (set a xa (sa, w)) in
   let w2 := snd (set b xb (sb, w1)) in
   let w3 := run_tick w2 in
   exists (to : RouteLocation) (w' : World),
     calls w3 = calls w ++ [{| call_router := router a; call_mode := mode a;
                               call_to := to |}] /\
     to_query to = overlay (JsMap.entries (queriesQueue w2 (router a)))
                     (query (route_of w2 (route a))) /\
     to_query to !! name b = Some (transformToQuery b xb) /\
     (name a <> name b ->
        to_query to !! name a = Some (transformToQuery a xa)) /\
     (forall k, k <> name a -> k <> name b ->
        to_query to !! k = query (route_of w (route a)) !! k) /\
     to_params to = params (route_of w (route a)) /\
     to_hash to = hash (route_of w (route a)) /\
     queriesQueue w' (router a) = JsMap.empty /\
     w3 = router_call (router a) (mode a) to w' /\
     queriesQueue w3 (router a) = JsMap.empty /\
     ticks w3 = []).
Proof.
  split.
  { intros w0 cb Hnd Hq. eexists. split; [by apply flush_pending |].
    intros k Hk. cbn [to_query]. by apply overlay_lookup. }
  intros Hr Hna Hnb Ht Hq Ha Hb.
  destruct (two_writes_tick a b sa sb w xa xb Hr Ht Hq Ha Hb)
    as (Hticks & Hqueue & Hrun).
  cbv zeta in *. rewrite Hrun, Hqueue, overlay_set_set.
  rewrite !(assign_plain (name b)), !(assign_plain (name a)) by done.
  exists {| to_params := params (route_of w (route a));
            to_query := <[name b := transformToQuery b xb]>
                          (<[name a := transformToQuery a xa]>
                             (query (route_of w (route a))));
            to_hash := hash (route_of w (route a)) |},
         (with_queue (router a) JsMap.empty
            (stop_ticks (snd (set b xb (sb, snd (set a xa (sa, w))))))).
  split; [|split].
  - cbn [router_call with_queue stop_ticks calls]. by rewrite !set_calls.
  - cbn [to_query]. by rewrite !set_route_of.
  - cbn [to_query to_params to_hash]. repeat split.
    + apply lookup_insert_eq.
    + intros Hne. rewrite lookup_insert_ne by done. apply lookup_insert_eq.
    + intros k Hka Hkb. by rewrite !lookup_insert_ne.
    + apply queriesQueue_with_queue.
    + rewrite queriesQueue_router_call. apply queriesQueue_with_queue.
Qed.

(** C6 (amended). Every write that passes the equality gate hands one more
    callback to the scheduler, whether or not callbacks are already waiting.
    In a tick the waiting callbacks all run; on each router they make one
    call if one of them belongs to that router while writes are pending for
    it, and none otherwise: after the first has emptied the map the others
    return at once.  No callback is left waiting after the tick. *)
Theorem flush_scheduling :
  (forall (Env T : Type) (J : JsValue T) (c : Config Env T) (x : T)
          (st : Cache T) (w : World),
     areQueryValuesEqual (transformToQuery c x) (cachedRawValue st) = false ->
     ticks (snd (set c x (st, w))) =
       ticks w ++ [{| flush_router := router c; flush_route := route c;
                      flush_mode := mode c |}]) /\
  (forall (w : World) (r : nat),
     length (calls_on r (run_tick w)) =
       length (calls_on r w) + (if commits r (ticks w) w then 1 else 0)) /\
  (forall w : World, ticks (run_tick w) = []).
Proof.
  split; [|split].
  - intros Env T J c x st w Hne. by rewrite (set_changed _ _ _ _ Hne).
  - intros w r. unfold run_tick. fold (stop_ticks w).
    by rewrite flush_all_calls_on.
  - intros w. unfold run_tick. by rewrite flush_all_ticks.
Qed.

(** C7 (amended). When the callbacks of a tick all belong to one router
    with pending writes, the single call uses the mode and the route of the
    callback scheduled first, that is, of the first write accepted since
    the last flush.  So for two synchronisers that write in turn with
    different modes the call uses the mode of the one that wrote first; its
    query is the route's query after the two assignments
    [newQueries[name] = raw], whatever the modes are: for names other than
    ["__proto__"] it holds both written values over the route's query. *)
Theorem mode_of_coalesced_commit {Env TA TB : Type} `{JsValue TA} `{JsValue TB}
    (a : Config Env TA) (b : Config Env TB) (sa : Cache TA) (sb : Cache TB)
    (w : World) (xa : TA) (xb : TB) :
  (forall (w0 : World) (cb : Flush) (cbs : list Flush),
     ticks w0 = cb :: cbs ->
     Forall (fun g => flush_router g = flush_router cb) cbs ->
     queriesQueue w0 (flush_router cb) <> JsMap.empty ->
     calls (run_tick w0) =
       calls w0 ++
         [{| call_router := flush_router cb; call_mode := flush_mode cb;
             call_to :=
               {| to_params := params (route_of w0 (flush_route cb));
                  to_query :=
                    overlay (JsMap.entries (queriesQueue w0 (flush_router cb)))
                      (query (route_of w0 (flush_route cb)));
                  to_hash := hash (route_of w0 (flush_route cb)) |} |}]) /\
  (router a = router b ->
   ticks w = [] ->
   queriesQueue w (router a) = JsMap.empty ->
   areQueryValuesEqual (transformToQuery a xa) (cachedRawValue sa) = false ->
   areQueryValuesEqual (transformToQuery b xb) (cachedRawValue sb) = false ->
   calls (run_tick (snd (set b xb (sb, snd (set a xa (sa, w)))))) =
     calls w ++
       [{| call_router := router a; call_mode := mode a;
           call_to :=
             {| to_params := params (route_of w (route a));
                to_query := assign (name b) (transformToQuery b xb)
                              (assign (name a) (transformToQuery a xa)
                                 (query (route_of w (route a))));
                to_hash := hash (route_of w (route a)) |} |}]) /\
  (router a = router b ->
   name a <> "__proto__" ->
   name b <> "__proto__" ->
   ticks w = [] ->
   queriesQueue w (router a) = JsMap.empty ->
   areQueryValuesEqual (transformToQuery a xa) (cachedRawValue sa) = false ->
   areQueryValuesEqual (transformToQuery b xb) (cachedRawValue sb) = false ->
   calls (run_tick (snd (set b xb (sb, snd (set a xa (sa, w)))))) =
     calls w ++
       [{| call_router := router a; call_mode := mode a;
           call_to :=
             {| to_params := params (route_of w (route a));
                to_query := <[name b := transformToQuery b xb]>
                              (<[name a := transformToQuery a xa]>
                                 (query (route_of w (route a))));
                to_hash := hash (route_of w (route a)) |} |}]).
Proof.
  assert (Htwo :
    router a = router b ->
    ticks w = [] ->
    queriesQueue w (router a) = JsMap.empty ->
    areQueryValuesEqual (transformToQuery a xa) (cachedRawValue sa) = false ->
    areQueryValuesEqual (transformToQuery b xb) (cachedRawValue sb) = false ->
    calls (run_tick (snd (set b xb (sb, snd (set a xa (sa, w)))))) =
      calls w ++
        [{| call_router := router a; call_mode := mode a;
            call_to :=
              {| to_params := params (route_of w (route a));
                 to_query := assign (name b) (transformToQuery b xb)
                               (assign (name a) (transformToQuery a xa)
                                  (query (route_of w (route a))));
                 to_hash := hash (route_of w (route a)) |} |}]).
  { intros Hr Ht Hq Ha Hb.
    destruct (two_writes_tick a b sa sb w xa xb Hr Ht Hq Ha Hb)
      as (_ & _ & Hrun).
    cbv zeta in Hrun. rewrite Hrun.
    cbn [router_call with_queue stop_ticks calls]. by rewrite !set_calls. }
  split; [|split; [exact Htwo |]].
  - intros w0 cb cbs Hticks Hall Hq.
    by rewrite (run_tick_one_router w0 cb cbs Hticks Hall Hq).
  - intros Hr Hna Hnb Ht Hq Ha Hb. rewrite (Htwo Hr Ht Hq Ha Hb).
    by rewrite (assign_plain (name a)), (assign_plain (name b)).
Qed.

(** C9 (amended). The unset state of the cache is the value [undefined]
    itself.  A cached typed value other than [undefined], [null] among
    them, differs from the unset state and is what [get] returns; a cached
    typed value [undefined] is the unset state, and [get] returns the
    default for it as it does after disposal. *)
Theorem unset_is_undefined {Env T : Type} `{JsValue T} (c : Config Env T)
    (st : Cache T) (env : Env) :
  cachedValue (dispose st) = undefined /\
  (cachedValue st <> undefined ->
     cachedValue st <> cachedValue (dispose st) /\
     get env c st = cachedValue st) /\
  (cachedValue st = undefined ->
     cachedValue st = cachedValue (dispose st) /\
     get env c st = toValue env (defaultValue c) /\
     get env c st = get env c (dispose st)) /\
  q_null <> (undefined : QueryValue).
Proof.
  split; [done |]. split; [|split; [|done]].
  - intros Hx. split; [done | by apply get_cached].
  - intros Hx. split; [done |]. by rewrite !get_default.
Qed.

(** ** The properties at the sample synchronisers *)

(** Writing ["vue3"] to [search] while the route holds ["vue3"]. *)
Lemma write_noop_gate_witness :
  areQueryValuesEqual
    (transformToQuery Sample.search_config (q_string "vue3"))
    (cachedRawValue Sample.search_cache) = true /\
  set Sample.search_config (q_string "vue3")
      (Sample.search_cache, Sample.search_world)
    = (Sample.search_cache, Sample.search_world).
Proof.
  split; [reflexivity |].
  apply (proj1 (write_noop_gate Sample.search_config (q_string "vue3")
                  Sample.search_cache Sample.search_world)).
  reflexivity.
Defined.

(** Writing ["vue"] to [search] and reading it back before the tick. *)
Lemma read_after_write_witness :
  areQueryValuesEqual
    (transformToQuery Sample.search_config (q_string "vue"))
    (cachedRawValue Sample.search_cache) = false /\
  q_string "vue" <> undefined /\
  get tt Sample.search_config
    (fst (set Sample.search_config (q_string "vue")
            (Sample.search_cache, Sample.search_world)))
    = q_string "vue".
Proof.
  split; [reflexivity |]. split; [discriminate |].
  apply (proj1 (read_after_write Sample.search_config (q_string "vue")
                  Sample.search_cache Sample.search_world tt));
    [reflexivity | discriminate].
Defined.

(** C2, as stated, fails: [tags] caches [["vite"]] for the raw value
    ["vite"]; writing the typed value ["vite"] is stopped by the equality
    gate, and [get] still returns [["vite"]]. *)
Lemma read_after_write_counterexample :
  ~ (forall x : QueryValue,
       get tt Sample.tags_config
         (fst (set Sample.tags_config x
                 (Sample.tags_cache, Sample.tags_world))) = x).
Proof.
  intros Hall. specialize (Hall (q_string "vite")).
  vm_compute in Hall. discriminate Hall.
Qed.

(** C3. At the synchroniser named ["__proto__"] the code does not do what
    the claim says.  It writes ["x"], [b] writes ["2"], and both entries
    are pending; the tick makes one router call, whose query has the field
    of [b] and the fields of the route, and no field ["__proto__"]. *)
Theorem coalescing_drops_proto_field :
  name Inherited.proto_config = "__proto__" /\
  queriesQueue Inherited.world_px_b2 0
    = [("__proto__", q_string "x"); ("b", q_string "2")] /\
  exists to : RouteLocation,
    calls (run_tick Inherited.world_px_b2)
      = [{| call_router := 0; call_mode := push; call_to := to |}] /\
    to_query to !! "__proto__" = None /\
    to_query to !! "b" = Some (q_string "2") /\
    to_query to = <["b" := q_string "2"]> (query Sample.route0).
Proof.
  split; [reflexivity |]. split; [reflexivity |].
  eexists. split; [reflexivity |].
  split; [reflexivity |]. split; reflexivity.
Qed.

(** [a] writes ["1"], [b] writes ["2"], then the tick. *)
Lemma coalescing_witness :
  (NoDup (JsMap.keys (queriesQueue Sample.world_a1_b2 0)) /\
   queriesQueue Sample.world_a1_b2 0 <> JsMap.empty /\
   exists to : RouteLocation,
     calls (flush {| flush_router := 0; flush_route := 0;
                     flush_mode := push |} Sample.world_a1_b2)
       = [{| call_router := 0; call_mode := push; call_to := to |}] /\
     to_query to !! "tags" = Some (q_string "vite")) /\
  router Sample.a_config = router Sample.b_config /\
  name Sample.a_config <> "__proto__" /\
  name Sample.b_config <> "__proto__" /\
  ticks Sample.world_ab = [] /\
  queriesQueue Sample.world_ab (router Sample.a_config) = JsMap.empty /\
  exists to : RouteLocation,
    calls (run_tick Sample.world_a1_b2) =
      calls Sample.world_ab ++
        [{| call_router := 0; call_mode := push; call_to := to |}] /\
    to_query to !! "a" = Some (q_string "1") /\
    to_query to !! "b" = Some (q_string "2") /\
    to_query to !! "search" = Some (q_string "vue3").
Proof.
  pose proof (coalescing Sample.a_config Sample.b_config Sample.a_cache
                Sample.b_cache Sample.world_ab (q_string "1") (q_string "2"))
    as [Hflush Htick].
  split.
  { assert (Hnd : NoDup (JsMap.keys (queriesQueue Sample.world_a1_b2 0))).
    { apply (JsMap_set_NoDup "b" (q_string "2") [("a", q_string "1")]).
      apply NoDup_singleton. }
    split; [exact Hnd |]. split; [discriminate |].
    destruct (Hflush Sample.world_a1_b2
                {| flush_router := 0; flush_route := 0; flush_mode := push |}
                Hnd) as (to & Hto & Hlookup); [discriminate |].
    exists to. split; [by rewrite Hto |].
    rewrite Hlookup by discriminate. reflexivity. }
  split; [reflexivity |]. split; [discriminate |]. split; [discriminate |].
  split; [reflexivity |]. split; [reflexivity |].
  destruct Htick
    as (to & w' & Hcalls & _ & Hb & Ha & Hrest & _);
    [reflexivity | discriminate | discriminate | reflexivity | reflexivity
    | reflexivity | reflexivity |].
  exists to. split; [exact Hcalls |]. split; [|split].
  - apply Ha. discriminate.
  - exact Hb.
  - rewrite (Hrest "search"); [reflexivity | discriminate | discriminate].
Defined.

(** An external ["vue"] reaches [search]. *)
Lemma external_change_never_enqueues_witness :
  areQueryValuesEqual (q_string "vue") (cachedRawValue Sample.search_cache)
    = false /\
  snd (watch_callback Sample.search_config (q_string "vue")
         (Sample.search_cache, Sample.search_world)) = Sample.search_world /\
  triggers (fst (watch_callback Sample.search_config (q_string "vue")
                   (Sample.search_cache, Sample.search_world))) = 1.
Proof.
  split; [reflexivity |].
  destruct (external_change_never_enqueues Sample.search_config
              (q_string "vue") Sample.search_cache Sample.search_world)
    as (Hw & _ & _ & _ & _ & _ & Hchanged).
  split; [exact Hw |].
  destruct (Hchanged eq_refl) as (_ & _ & Htriggers). exact Htriggers.
Defined.

(** The first accepted write of [a] schedules its callback. *)
Lemma flush_scheduling_witness :
  areQueryValuesEqual (transformToQuery Sample.a_config (q_string "1"))
    (cachedRawValue Sample.a_cache) = false /\
  ticks (snd (set Sample.a_config (q_string "1")
                (Sample.a_cache, Sample.world_ab)))
    = ticks Sample.world_ab ++
        [{| flush_router := router Sample.a_config;
            flush_route := route Sample.a_config;
            flush_mode := mode Sample.a_config |}].
Proof.
  split; [reflexivity |].
  apply (proj1 flush_scheduling unit QueryValue _ Sample.a_config
           (q_string "1") Sample.a_cache Sample.world_ab).
  reflexivity.
Defined.

(** C6, as stated, fails: the write of [b] follows the write of [a] in the
    same tick and on the same router, and it schedules a second callback. *)
Lemma flush_scheduling_counterexample :
  queriesQueue Sample.world_a1 0 = [("a", q_string "1")] /\
  ticks Sample.world_a1 =
    [{| flush_router := 0; flush_route := 0; flush_mode := push |}] /\
  ticks Sample.world_a1_b2 =
    [{| flush_router := 0; flush_route := 0; flush_mode := push |};
     {| flush_router := 0; flush_route := 0; flush_mode := replace |}] /\
  ticks Sample.world_a1_b2 <> ticks Sample.world_a1.
Proof.
  split; [reflexivity |]. split; [reflexivity |]. split; [reflexivity |].
  vm_compute. discriminate.
Qed.

(** [a] in mode push writes first, [b] in mode replace second. *)
Lemma mode_of_coalesced_commit_witness :
  (ticks Sample.world_a1_b2 =
     {| flush_router := 0; flush_route := 0; flush_mode := push |}
     :: [{| flush_router := 0; flush_route := 0; flush_mode := replace |}] /\
   queriesQueue Sample.world_a1_b2 0 <> JsMap.empty /\
   map call_mode (calls (run_tick Sample.world_a1_b2)) = [push]) /\
  router Sample.a_config = router Sample.b_config /\
  ticks Sample.world_ab = [] /\
  queriesQueue Sample.world_ab (router Sample.a_config) = JsMap.empty /\
  map call_router (calls (run_tick Sample.world_a1_b2)) = [0].
Proof.
  pose proof (mode_of_coalesced_commit Sample.a_config Sample.b_config
                Sample.a_cache Sample.b_cache Sample.world_ab
                (q_string "1") (q_string "2")) as (Hfirst & Htwo & _).
  split.
  { split; [reflexivity |]. split; [discriminate |].
    rewrite (Hfirst Sample.world_a1_b2
               {| flush_router := 0; flush_route := 0; flush_mode := push |}
               [{| flush_router := 0; flush_route := 0;
                   flush_mode := replace |}]);
      [reflexivity | reflexivity | by repeat constructor | discriminate]. }
  split; [reflexivity |]. split; [reflexivity |]. split; [reflexivity |].
  unfold Sample.world_a1_b2, Sample.world_a1.
  rewrite Htwo; reflexivity.
Defined.

(** C7, as stated, fails: [b], in mode replace, enqueued last, and the one
    call of the tick is a push. *)
Lemma mode_of_coalesced_commit_counterexample :
  mode Sample.a_config = push /\
  mode Sample.b_config = replace /\
  JsMap.keys (queriesQueue Sample.world_a1_b2 0) = ["a"; "b"] /\
  map call_mode (calls (run_tick Sample.world_a1_b2)) <> [mode Sample.b_config].
Proof.
  split; [reflexivity |]. split; [reflexivity |]. split; [reflexivity |].
  vm_compute. discriminate.
Qed.

(** Tearing down the scope of [search]. *)
Lemma disposal_witness :
  scoped Sample.search_cache = true /\
  cachedValue (scope_stop Sample.search_cache) = undefined /\
  get tt Sample.search_config (scope_stop Sample.search_cache)
    = q_string "default".
Proof.
  split; [reflexivity |].
  destruct (disposal Sample.search_config Sample.search_cache eq_refl)
    as (Hvalue & _ & Hget & _).
  split; [exact Hvalue | exact (Hget tt)].
Defined.

(** C8, as stated, fails: [search] is torn down and ["again"] is written
    to it; [get] then returns ["again"], not the default. *)
Lemma disposal_counterexample :
  ~ (forall x : QueryValue,
       get tt Sample.search_config
         (fst (set Sample.search_config x
                 (scope_stop Sample.search_cache, Sample.search_world)))
       = toValue tt (defaultValue Sample.search_config)).
Proof.
  intros Hall. specialize (Hall (q_string "again")).
  vm_compute in Hall. discriminate Hall.
Qed.

(** [search] caches ["vue3"], which is not [undefined]. *)
Lemma unset_is_undefined_witness :
  cachedValue Sample.search_cache <> undefined /\
  get tt Sample.search_config Sample.search_cache
    = cachedValue Sample.search_cache.
Proof.
  split; [discriminate |].
  apply (proj1 (proj2 (unset_is_undefined Sample.search_config
                         Sample.search_cache tt))).
  discriminate.
Defined.

(** C9, as stated, fails: writing [undefined] to [search] passes the
    equality gate, and the cache then holds what it holds after disposal. *)
Lemma unset_is_undefined_counterexample :
  ~ (forall x : QueryValue,
       areQueryValuesEqual (transformToQuery Sample.search_config x)
         (cachedRawValue Sample.search_cache) = false ->
       cachedValue (fst (set Sample.search_config x
                           (Sample.search_cache, Sample.search_world)))
         <> cachedValue (dispose Sample.search_cache)).
Proof.
  intros Hall. apply (Hall undefined); reflexivity.
Qed.

(** C10. At the name ["toString"] the code does not do what the claim
    says.  The query has no such key, yet the synchroniser starts from the
    member of [Object.prototype] of that name: [get] returns it instead of
    the default, and writing [undefined] is accepted: it notifies, puts an
    entry into the pending map and schedules a callback, and the tick makes
    a router call. *)
Theorem inherited_name_is_seeded :
  query Sample.route0 !! "toString" = None /\
  cachedRawValue Inherited.toString_cache = Scalar (QInherited P_toString) /\
  get tt Inherited.toString_config Inherited.toString_cache
    = Scalar (QInherited P_toString) /\
  transformToQuery Inherited.toString_config undefined = q_undefined /\
  triggers (fst (set Inherited.toString_config undefined
                   (Inherited.toString_cache, Inherited.toString_world)))
    = 1 /\
  queriesQueue
    (snd (set Inherited.toString_config undefined
            (Inherited.toString_cache, Inherited.toString_world))) 0
    = [("toString", q_undefined)] /\
  ticks (snd (set Inherited.toString_config undefined
                (Inherited.toString_cache, Inherited.toString_world)))
    = [{| flush_router := 0; flush_route := 0; flush_mode := push |}] /\
  exists to : RouteLocation,
    calls (run_tick
             (snd (set Inherited.toString_config undefined
                     (Inherited.toString_cache, Inherited.toString_world))))
      = [{| call_router := 0; call_mode := push; call_to := to |}] /\
    to_query to !! "toString" = Some q_undefined.
Proof.
  split; [reflexivity |]. split; [reflexivity |]. split; [reflexivity |].
  split; [reflexivity |]. split; [reflexivity |]. split; [reflexivity |].
  split; [reflexivity |].
  eexists. split; reflexivity.
Qed.

(** * Further properties of the code *)

(** ** The oracle as an equivalence *)

(** X1. [areQueryValuesEqual] answers [true] exactly for two values of the
    same shape and content: it is reflexive and transitive, an array is
    equal only to an array with the same elements in the same order, and
    [null], [undefined] and the empty string are three different values. *)
Theorem equality_is_structural :
  (forall a b, areQueryValuesEqual a b = true <-> a = b) /\
  (forall a, areQueryValuesEqual a a = true) /\
  (forall a b c,
     areQueryValuesEqual a b = true -> areQueryValuesEqual b c = true ->
     areQueryValuesEqual a c = true) /\
  (forall x y l l',
     areQueryValuesEqual (Arr (x :: y :: l)) (Arr (y :: x :: l')) = true ->
     x = y) /\
  areQueryValuesEqual q_null q_undefined = false /\
  areQueryValuesEqual q_null (q_string "") = false.
Proof.
  split; [apply areQueryValuesEqual_spec |].
  split; [apply areQueryValuesEqual_refl |].
  split; [|split; [|done]].
  - intros a b c Hab Hbc. apply areQueryValuesEqual_spec in Hab, Hbc.
    subst. apply areQueryValuesEqual_refl.
  - intros x y l l' Heq. apply areQueryValuesEqual_spec in Heq.
    by injection Heq.
Qed.

Lemma equality_is_structural_witness :
  areQueryValuesEqual (Arr [QString "a"; QNull]) (Arr [QString "a"; QNull])
    = true /\
  areQueryValuesEqual (Arr [QString "a"; QNull]) (Arr [QString "a"; QNull])
    = true /\
  Arr [QString "a"; QNull] = Arr [QString "a"; QNull].
Proof.
  split; [reflexivity |]. split; [reflexivity |].
  apply (proj1 (proj1 equality_is_structural (Arr [QString "a"; QNull])
                  (Arr [QString "a"; QNull]))).
  apply (proj1 (proj2 (proj2 equality_is_structural))
           (Arr [QString "a"; QNull]) (Arr [QString "a"; QNull])
           (Arr [QString "a"; QNull]));
    reflexivity.
Defined.

(** ** Creating a synchroniser *)

Section ConstructorFacts.
Context {Env T : Type} `{JsValue T}.
Implicit Types (c : Config Env T) (st : Cache T) (w : World) (x : T).

(** The world a call of [useRouteQuery] returns. *)
Lemma useRouteQuery_world (name : string) (dflt : MaybeRefOrGetter Env T)
    (options : RouteQueryOptions T) (getCurrentScope : bool) w :
  snd (useRouteQuery name dflt options getCurrentScope w) =
    match _queue w !! default (useRouter w) (opt_router options) with
    | Some _ => w
    | None =>
        with_queue (default (useRouter w) (opt_router options)) JsMap.empty w
    end.
Proof. unfold useRouteQuery. by destruct (has_property name _). Qed.

Lemma useRouteQuery_config (name : string) (dflt : MaybeRefOrGetter Env T)
    (options : RouteQueryOptions T) (getCurrentScope : bool) w :
  fst (fst (useRouteQuery name dflt options getCurrentScope w)) =
    {| name := name; defaultValue := dflt;
       mode := default push (opt_mode options);
       route := default (useRoute w) (opt_route options);
       router := default (useRouter w) (opt_router options);
       transformFromQuery := transform_get (opt_transform options);
       transformToQuery := transform_set (opt_transform options) |}.
Proof. unfold useRouteQuery. by destruct (has_property name _). Qed.

Lemma useRouteQuery_queriesQueue (name : string)
    (dflt : MaybeRefOrGetter Env T) (options : RouteQueryOptions T)
    (getCurrentScope : bool) w (r : nat) :
  queriesQueue (snd (useRouteQuery name dflt options getCurrentScope w)) r
    = queriesQueue w r.
Proof.
  rewrite useRouteQuery_world.
  destruct (_queue w !! default (useRouter w) (opt_router options)) eqn:E;
    [done |].
  destruct (decide (default (useRouter w) (opt_router options) = r))
    as [<-|Hne].
  - rewrite queriesQueue_with_queue. unfold queriesQueue. by rewrite E.
  - by apply queriesQueue_with_queue_ne.
Qed.

Lemma useRouteQuery_untouched (name : string)
    (dflt : MaybeRefOrGetter Env T) (options : RouteQueryOptions T)
    (getCurrentScope : bool) w :
  routes (snd (useRouteQuery name dflt options getCurrentScope w)) = routes w /\
  ticks (snd (useRouteQuery name dflt options getCurrentScope w)) = ticks w /\
  calls (snd (useRouteQuery name dflt options getCurrentScope w)) = calls w.
Proof.
  rewrite useRouteQuery_world.
  by destruct (_queue w !! default (useRouter w) (opt_router options)).
Qed.

Lemma useRouteQuery_cache (name : string) (dflt : MaybeRefOrGetter Env T)
    (options : RouteQueryOptions T) (getCurrentScope : bool) w :
  snd (fst (useRouteQuery name dflt options getCurrentScope w)) =
    {| cachedValue :=
         if has_property name
              (query (route_of w (default (useRoute w) (opt_route options))))
         then transform_get (opt_transform options)
                (get_property name
                   (query (route_of w
                             (default (useRoute w) (opt_route options)))))
         else undefined;
       cachedRawValue :=
         if has_property name
              (query (route_of w (default (useRoute w) (opt_route options))))
         then get_property name
                (query (route_of w
                          (default (useRoute w) (opt_route options))))
         else q_undefined;
       triggers := 0; watching := true;
       scoped := tryOnScopeDispose getCurrentScope |}.
Proof.
  unfold useRouteQuery.
  set (r := default (useRouter w) (opt_router options)).
  assert (Hroute : forall i,
    route_of (match _queue w !! r with
              | Some _ => w
              | None => with_queue r JsMap.empty w
              end) i = route_of w i).
  { intros i. by destruct (_queue w !! r). }
  rewrite Hroute. by destruct (has_property name _).
Qed.

(** The test [name in query] and the read [query[name]] for a key of the
    query, and for a name that is neither a key nor a member of
    [Object.prototype]. *)
Lemma property_own (name : string) (q : gmap string QueryValue)
    (v : QueryValue) :
  q !! name = Some v ->
  has_property name q = true /\ get_property name q = v.
Proof. intros Hv. unfold has_property, get_property. by rewrite Hv. Qed.

Lemma property_absent (name : string) (q : gmap string QueryValue) :
  q !! name = None -> Object_prototype name = None ->
  has_property name q = false.
Proof. intros Hq Hp. unfold has_property. by rewrite Hq, Hp. Qed.

(** X2. A synchroniser created while the route's query has its name starts
    from that raw value: the raw value is cached as it is, [get] returns its
    transform (when that is not [undefined]) without any write, and writing
    a value whose raw form is the one in the route does nothing at all. *)
Theorem constructor_seeds_cache (name : string)
    (dflt : MaybeRefOrGetter Env T) (options : RouteQueryOptions T)
    (getCurrentScope : bool) w c st w' (v : QueryValue) :
  query (route_of w (default (useRoute w) (opt_route options))) !! name
    = Some v ->
  useRouteQuery name dflt options getCurrentScope w = (c, st, w') ->
  cachedRawValue st = v /\
  cachedValue st = transform_get (opt_transform options) v /\
  (transform_get (opt_transform options) v <> undefined ->
     forall env, get env c st = transform_get (opt_transform options) v) /\
  (transform_get (opt_transform options) v = undefined ->
     forall env, get env c st = toValue env dflt) /\
  (forall x, transform_set (opt_transform options) x = v ->
     set c x (st, w') = (st, w')).
Proof.
  intros Hv Hnew.
  pose proof (useRouteQuery_cache name dflt options getCurrentScope w) as Hst.
  pose proof (useRouteQuery_config name dflt options getCurrentScope w) as Hc.
  destruct (property_own name _ v Hv) as [Hhas Hread].
  rewrite Hnew, Hhas, Hread in Hst. rewrite Hnew in Hc.
  simpl in Hst, Hc. subst st c.
  split; [done |]. split; [done |]. split; [|split].
  - intros Hdef env. by apply get_cached.
  - intros Hundef env. by apply get_default.
  - intros x Hx. apply set_equal. simpl. rewrite Hx.
    apply areQueryValuesEqual_refl.
Qed.

(** X3. Creating a synchroniser changes nothing that others can see: no
    route changes, no callback is scheduled, no router call is made, and
    the pending writes of every router are what they were.  The router has
    a pending map afterwards, and a map that existed before is kept, not
    replaced.  The new instance has fired no notification, and it takes
    part in scope teardown exactly when it was created inside a scope. *)
Theorem constructor_frame (name : string) (dflt : MaybeRefOrGetter Env T)
    (options : RouteQueryOptions T) (getCurrentScope : bool) w :
  let new := useRouteQuery name dflt options getCurrentScope w in
  let c := fst (fst new) in
  let st := snd (fst new) in
  let w' := snd new in
  routes w' = routes w /\ ticks w' = ticks w /\ calls w' = calls w /\
  (forall r, queriesQueue w' r = queriesQueue w r) /\
  _queue w' !! router c = Some (queriesQueue w (router c)) /\
  (forall m, _queue w !! router c = Some m -> _queue w' = _queue w) /\
  (forall r, r <> router c -> _queue w' !! r = _queue w !! r) /\
  triggers st = 0 /\
  scoped st = getCurrentScope /\
  (getCurrentScope = false -> scope_stop st = st).
Proof.
  cbv zeta.
  rewrite useRouteQuery_world, useRouteQuery_config, useRouteQuery_cache.
  cbn [router].
  set (r := default (useRouter w) (opt_router options)).
  assert (Hscope : tryOnScopeDispose getCurrentScope = getCurrentScope)
    by (by destruct getCurrentScope).
  assert (Hstop : forall st0 : Cache T,
    scoped st0 = tryOnScopeDispose getCurrentScope ->
    getCurrentScope = false -> scope_stop st0 = st0).
  { intros st0 Hsc ->. unfold scope_stop. by rewrite Hsc. }
  destruct (_queue w !! r) as [m|] eqn:E.
  - repeat split; try done; try (by apply Hstop).
    unfold queriesQueue. by rewrite E.
  - repeat split; try done; try (by apply Hstop).
    + intros r'. destruct (decide (r = r')) as [<-|Hne].
      * rewrite queriesQueue_with_queue. unfold queriesQueue. by rewrite E.
      * by apply queriesQueue_with_queue_ne.
    + simpl. rewrite lookup_insert_eq. unfold queriesQueue. by rewrite E.
    + intros r' Hne. simpl. by rewrite lookup_insert_ne.
Qed.

(** X16. For a synchroniser created while its name is neither a key of the
    route's query nor the name of a member of [Object.prototype], a write
    whose raw value is [undefined] changes neither the cache nor the
    shared world: nothing is notified, enqueued or scheduled, the next
    tick makes no call for it, and [get] still returns the default. *)
Theorem set_undefined_on_absent_name (name : string)
    (dflt : MaybeRefOrGetter Env T) (options : RouteQueryOptions T)
    (getCurrentScope : bool) w c st w' x :
  query (route_of w (default (useRoute w) (opt_route options))) !! name
    = None ->
  Object_prototype name = None ->
  useRouteQuery name dflt options getCurrentScope w = (c, st, w') ->
  transformToQuery c x = q_undefined ->
  cachedRawValue st = q_undefined /\
  set c x (st, w') = (st, w') /\
  triggers (fst (set c x (st, w'))) = 0 /\
  queriesQueue (snd (set c x (st, w'))) (router c)
    = queriesQueue w (router c) /\
  ticks (snd (set c x (st, w'))) = ticks w /\
  calls (snd (set c x (st, w'))) = calls w /\
  calls (run_tick (snd (set c x (st, w')))) = calls (run_tick w') /\
  (forall env, get env c (fst (set c x (st, w'))) = toValue env dflt).
Proof.
  intros Habsent Hproto Hnew Hraw.
  pose proof (useRouteQuery_cache name dflt options getCurrentScope w) as Hst.
  pose proof (useRouteQuery_config name dflt options getCurrentScope w) as Hc.
  pose proof (useRouteQuery_untouched name dflt options getCurrentScope w)
    as (_ & Hticks & Hcalls).
  pose proof (useRouteQuery_queriesQueue name dflt options getCurrentScope w)
    as Hqueues.
  rewrite (property_absent name _ Habsent Hproto) in Hst.
  rewrite Hnew in Hst, Hc, Hticks, Hcalls, Hqueues.
  cbn [fst snd] in Hst, Hc, Hticks, Hcalls, Hqueues.
  assert (Hset : set c x (st, w') = (st, w')).
  { apply set_equal. rewrite Hraw, Hst. apply areQueryValuesEqual_refl. }
  rewrite Hset. cbn [fst snd].
  split; [by rewrite Hst |]. split; [done |]. split; [by rewrite Hst |].
  split; [apply Hqueues |]. split; [done |]. split; [done |]. split; [done |].
  intros env. rewrite Hc, Hst. by apply get_default.
Qed.
End ConstructorFacts.

(** ** Writes, echoes and external changes *)

Section EchoFacts.
Context {Env T : Type} `{JsValue T}.
Implicit Types (c : Config Env T) (st : Cache T) (w : World) (x : T).

(** After any write the cached raw value is the raw form of the value
    written, whether the write was accepted or stopped by the gate. *)
Lemma set_cachedRawValue c x st w :
  cachedRawValue (fst (set c x (st, w))) = transformToQuery c x.
Proof.
  destruct (areQueryValuesEqual (transformToQuery c x) (cachedRawValue st))
    eqn:Egate.
  - rewrite (set_equal _ _ _ _ Egate). simpl.
    symmetry. by apply areQueryValuesEqual_spec.
  - by rewrite (set_changed _ _ _ _ Egate).
Qed.

Lemma watch_callback_cachedRawValue c v st w :
  cachedRawValue (fst (watch_callback c v (st, w))) = v.
Proof.
  destruct (areQueryValuesEqual v (cachedRawValue st)) eqn:Egate.
  - rewrite (watch_callback_equal _ _ _ _ Egate). simpl.
    symmetry. by apply areQueryValuesEqual_spec.
  - by rewrite (watch_callback_changed _ _ _ _ Egate).
Qed.

Lemma watch_callback_world c (v : QueryValue) st w :
  snd (watch_callback c v (st, w)) = w.
Proof.
  unfold watch_callback. by destruct (areQueryValuesEqual v (cachedRawValue st)).
Qed.

(** One accepted write while nothing is pending for the router, then the
    tick. *)
Lemma one_write_tick c x st w :
  ticks w = [] ->
  queriesQueue w (router c) = JsMap.empty ->
  areQueryValuesEqual (transformToQuery c x) (cachedRawValue st) = false ->
  calls (run_tick (snd (set c x (st, w)))) =
    calls w ++
      [{| call_router := router c; call_mode := mode c;
          call_to :=
            {| to_params := params (route_of w (route c));
               to_query := assign (name c) (transformToQuery c x)
                             (query (route_of w (route c)));
               to_hash := hash (route_of w (route c)) |} |}].
Proof.
  intros Ht Hq Hne. rewrite (set_changed _ _ _ _ Hne). cbn [snd].
  rewrite Hq.
  set (w1 := nextTick _ _).
  assert (Hticks : ticks w1 = [flush_of c]) by (subst w1; simpl; by rewrite Ht).
  assert (Hqueue : queriesQueue w1 (router c) =
                   [(name c, transformToQuery c x)]).
  { subst w1. unfold nextTick, queriesQueue. simpl.
    by rewrite lookup_insert_eq. }
  rewrite (run_tick_one_router w1 (flush_of c) [] Hticks);
    [| constructor | simpl; by rewrite Hqueue].
  simpl. by rewrite Hqueue.
Qed.

(** X4. A synchroniser created while its name is neither a key of the
    query nor the name of a member of [Object.prototype] accepts every
    write whose raw form is not [undefined], also one equal to its
    default: with nothing else pending, the next tick makes one
    router call in the synchroniser's mode whose query is the route's query
    with the name set to that raw form, and whose params and hash are the
    route's. *)
Theorem write_on_absent_name_is_committed (name : string)
    (dflt : MaybeRefOrGetter Env T) (options : RouteQueryOptions T)
    (getCurrentScope : bool) w c st w' x :
  query (route_of w (default (useRoute w) (opt_route options))) !! name
    = None ->
  Object_prototype name = None ->
  useRouteQuery name dflt options getCurrentScope w = (c, st, w') ->
  ticks w = [] ->
  queriesQueue w (router c) = JsMap.empty ->
  transformToQuery c x <> q_undefined ->
  calls (run_tick (snd (set c x (st, w')))) =
    calls w ++
      [{| call_router := router c;
          call_mode := default push (opt_mode options);
          call_to :=
            {| to_params := params (route_of w (route c));
               to_query := <[name := transformToQuery c x]>
                             (query (route_of w (route c)));
               to_hash := hash (route_of w (route c)) |} |}] /\
  triggers (fst (set c x (st, w'))) = 1 /\
  (x <> undefined -> forall env, get env c (fst (set c x (st, w'))) = x).
Proof.
  intros Habsent Hproto Hnew Ht Hq Hraw.
  assert (Hname : name <> "__proto__").
  { intros ->. vm_compute in Hproto. discriminate Hproto. }
  pose proof (useRouteQuery_cache name dflt options getCurrentScope w) as Hst.
  pose proof (useRouteQuery_config name dflt options getCurrentScope w) as Hc.
  pose proof (useRouteQuery_untouched name dflt options getCurrentScope w)
    as (Hroutes & Hticks & Hcalls).
  pose proof (useRouteQuery_queriesQueue name dflt options getCurrentScope w)
    as Hqueues.
  rewrite Hnew in Hst, Hc, Hroutes, Hticks, Hcalls, Hqueues.
  cbn [fst snd] in Hst, Hc, Hroutes, Hticks, Hcalls, Hqueues.
  rewrite (property_absent name _ Habsent Hproto) in Hst.
  assert (Hgate : areQueryValuesEqual (transformToQuery c x)
                    (cachedRawValue st) = false).
  { rewrite Hst. simpl. by apply areQueryValuesEqual_false. }
  split; [|split].
  - rewrite (one_write_tick c x st w') by (by rewrite ?Hticks, ?Hqueues).
    unfold route_of. rewrite Hroutes, Hcalls. rewrite Hc.
    by rewrite (assign_plain name).
  - rewrite (set_changed _ _ _ _ Hgate). simpl. by rewrite Hst.
  - intros Hx env. rewrite (set_changed _ _ _ _ Hgate). simpl.
    by apply get_cached.
Qed.

(** X5. An external change to a value other than the cached raw value is
    what [get] shows next, with no write in between: the transform of the
    new raw value, or the default when the new raw value is [undefined] or
    transforms to [undefined]. *)
Theorem external_change_propagates c (v : QueryValue) st w env :
  areQueryValuesEqual v (cachedRawValue st) = false ->
  let st' := fst (watch_callback c v (st, w)) in
  (v <> q_undefined -> transformFromQuery c v <> undefined ->
     get env c st' = transformFromQuery c v) /\
  (v = q_undefined \/ transformFromQuery c v = undefined ->
     get env c st' = toValue env (defaultValue c)).
Proof.
  intros Hne. cbv zeta. rewrite (watch_callback_changed _ _ _ _ Hne). simpl.
  split.
  - intros Hv Hdef.
    destruct (query_is_undefined v) eqn:E.
    + by pose proof (proj1 (@is_undefined_spec QueryValue _ v) E).
    + by apply get_cached.
  - intros Hcase. apply get_default. simpl.
    destruct (query_is_undefined v) eqn:E; [done |].
    destruct Hcase as [->|Hundef]; [done | exact Hundef].
Qed.

(** X6. When the raw value just written comes back as an external change,
    as it does once the router has applied the commit, the reaction does
    nothing: the typed value that was written stays in the cache, it is not
    transformed again, and no second notification is fired. *)
Theorem router_echo_is_ignored c x st w :
  let s1 := set c x (st, w) in
  watch_callback c (transformToQuery c x) s1 = s1 /\
  deliver c (transformToQuery c x) s1 = s1.
Proof.
  cbv zeta. destruct (set c x (st, w)) as [st1 w1] eqn:Es.
  assert (Hraw : cachedRawValue st1 = transformToQuery c x).
  { pose proof (set_cachedRawValue c x st w) as Hr. by rewrite Es in Hr. }
  assert (Hcb : watch_callback c (transformToQuery c x) (st1, w1) = (st1, w1)).
  { apply watch_callback_equal. rewrite Hraw. apply areQueryValuesEqual_refl. }
  split; [exact Hcb |].
  unfold deliver. simpl. by destruct (watching st1).
Qed.

(** X7. After an external change has been received, receiving the same raw
    value again does nothing, and so does a write of any value whose raw
    form is that value: the change is not written back to the router. *)
Theorem external_change_is_not_written_back c (v : QueryValue) st w x :
  let s1 := watch_callback c v (st, w) in
  watch_callback c v s1 = s1 /\
  (transformToQuery c x = v -> set c x s1 = s1) /\
  (transformToQuery c x = v -> calls (run_tick (snd (set c x s1)))
                               = calls (run_tick w)).
Proof.
  cbv zeta. destruct (watch_callback c v (st, w)) as [st1 w1] eqn:Es.
  assert (Hraw : cachedRawValue st1 = v).
  { pose proof (watch_callback_cachedRawValue c v st w) as Hr.
    by rewrite Es in Hr. }
  assert (Hw : w1 = w).
  { pose proof (watch_callback_world c v st w) as Hr.
    by rewrite Es in Hr. }
  assert (Hset : transformToQuery c x = v -> set c x (st1, w1) = (st1, w1)).
  { intros Hx. apply set_equal. rewrite Hx, Hraw.
    apply areQueryValuesEqual_refl. }
  split; [|split].
  - apply watch_callback_equal. rewrite Hraw. apply areQueryValuesEqual_refl.
  - exact Hset.
  - intros Hx. rewrite (Hset Hx). simpl. by rewrite Hw.
Qed.
End EchoFacts.

(** ** Several writes through one synchroniser *)

Section WriteSequences.
Context {Env T : Type} `{JsValue T}.
Implicit Types (c : Config Env T) (st : Cache T) (w : World) (x : T).

Lemma set_written c st0 w0 (n : nat) x (s : Cache T * World) :
  queriesQueue w0 (router c) = JsMap.empty ->
  written c st0 w0 n s ->
  written c st0 w0 n (set c x s) \/ written c st0 w0 (S n) (set c x s).
Proof.
  intros Hq0 Hs. destruct s as [st1 w1].
  destruct (areQueryValuesEqual (transformToQuery c x) (cachedRawValue st1))
    eqn:Egate.
  - left. by rewrite (set_equal _ _ _ _ Egate).
  - right. rewrite (set_changed _ _ _ _ Egate).
    destruct Hs as (Htr & Hticks & Hcalls & Hroutes & Hzero & Hpos).
    simpl in *. unfold written. simpl.
    split; [lia |].
    split; [rewrite Hticks; exact (eq_sym (replicate_S_end n (flush_of c))) |].
    split; [done |]. split; [done |]. split; [done |]. intros _.
    unfold queriesQueue at 1. simpl. rewrite lookup_insert_eq. simpl.
    destruct n as [|n].
    + injection (Hzero eq_refl) as -> ->. by rewrite Hq0.
    + rewrite Hpos by done. simpl. by rewrite String.eqb_refl.
Qed.

Lemma writes_written c st0 w0 (xs : list T) :
  queriesQueue w0 (router c) = JsMap.empty ->
  forall (n : nat) (s : Cache T * World),
    written c st0 w0 n s -> exists n', written c st0 w0 n' (writes c xs s).
Proof.
  intros Hq0. unfold writes.
  induction xs as [|x xs IH]; intros n s Hs; simpl; [by exists n |].
  destruct (set_written c st0 w0 n x s Hq0 Hs) as [Hn|Hn]; by eapply IH.
Qed.

(** The tick after at least one accepted write of a synchroniser. *)
Lemma written_tick c st0 w0 (n : nat) (s : Cache T * World) :
  written c st0 w0 n s ->
  n <> 0 ->
  calls (run_tick (snd s)) =
    calls w0 ++
      [{| call_router := router c; call_mode := mode c;
          call_to :=
            {| to_params := params (route_of w0 (route c));
               to_query := assign (name c) (cachedRawValue (fst s))
                             (query (route_of w0 (route c)));
               to_hash := hash (route_of w0 (route c)) |} |}] /\
  queriesQueue (run_tick (snd s)) (router c) = JsMap.empty.
Proof.
  intros (Htr & Hticks & Hcalls & Hroutes & Hzero & Hpos) Hn.
  destruct s as [st1 w1]. simpl in *. specialize (Hpos Hn).
  destruct n as [|n]; [done |]. rewrite replicate_S in Hticks.
  rewrite (run_tick_one_router w1 (flush_of c) _ Hticks).
  - cbn [flush_of flush_router flush_route flush_mode]. split.
    + rewrite Hpos. unfold overlay, JsMap.entries, route_of.
      cbn [fold_left router_call with_queue stop_ticks calls].
      by rewrite Hroutes, Hcalls.
    + rewrite queriesQueue_router_call. apply queriesQueue_with_queue.
  - by apply Forall_replicate.
  - simpl. by rewrite Hpos.
Qed.

Lemma written_start c st w : ticks w = [] -> written c st w 0 (st, w).
Proof.
  intros Ht. unfold written. simpl. rewrite Ht. repeat split; try done; lia.
Qed.

(** X8. However many values are written through one synchroniser before
    the tick, with nothing pending for its router at the start: every
    accepted write fires one notification and schedules one callback, and
    the cached raw value is the raw form of the value written last.  If no
    write was accepted nothing has changed; otherwise the tick makes
    exactly one router call and empties the pending map.  The query of the
    call is the route's query after the assignment
    [newQueries[name] = raw] of the raw form of the value written last:
    the name is set to it, unless the name is ["__proto__"] and not a key
    of the route's query, for which no field is created. *)
Theorem writes_coalesce c st w (xs : list T) x :
  ticks w = [] ->
  queriesQueue w (router c) = JsMap.empty ->
  let s := writes c (xs ++ [x]) (st, w) in
  cachedRawValue (fst s) = transformToQuery c x /\
  length (ticks (snd s)) = triggers (fst s) - triggers st /\
  calls (snd s) = calls w /\
  (triggers (fst s) = triggers st -> s = (st, w)) /\
  (triggers (fst s) <> triggers st ->
     calls (run_tick (snd s)) =
       calls w ++
         [{| call_router := router c; call_mode := mode c;
             call_to :=
               {| to_params := params (route_of w (route c));
                  to_query := assign (name c) (transformToQuery c x)
                                (query (route_of w (route c)));
                  to_hash := hash (route_of w (route c)) |} |}] /\
     queriesQueue (run_tick (snd s)) (router c) = JsMap.empty /\
     (name c <> "__proto__" ->
      forall to, last (calls (run_tick (snd s))) = Some to ->
        to_query (call_to to) =
          <[name c := transformToQuery c x]>
            (query (route_of w (route c)))) /\
     (name c = "__proto__" ->
      query (route_of w (route c)) !! "__proto__" = None ->
      forall to, last (calls (run_tick (snd s))) = Some to ->
        to_query (call_to to) = query (route_of w (route c)))).
Proof.
  intros Ht Hq. cbv zeta.
  assert (Hraw : cachedRawValue (fst (writes c (xs ++ [x]) (st, w)))
                 = transformToQuery c x).
  { unfold writes. rewrite fold_left_app. simpl.
    destruct (fold_left _ xs (st, w)) as [st1 w1].
    apply set_cachedRawValue. }
  destruct (writes_written c st w (xs ++ [x]) Hq 0 (st, w)
              (written_start c st w Ht)) as (n & Hn).
  pose proof (written_tick c st w n _ Hn) as Htick.
  destruct Hn as (Htr & Hticks & Hcalls & Hroutes & Hzero & Hpos).
  rewrite Hraw in Htick.
  split; [done |]. split; [rewrite Hticks, length_replicate; lia |].
  split; [done |]. split.
  - intros Hsame. apply Hzero. lia.
  - intros Hdiff. destruct Htick as [Hcommit Hempty]; [lia |].
    split; [exact Hcommit |]. split; [exact Hempty |].
    rewrite Hcommit. split.
    + intros Hname to Hlast. rewrite last_snoc in Hlast.
      injection Hlast as <-. simpl. by apply assign_plain.
    + intros Hname Hown to Hlast. rewrite last_snoc in Hlast.
      injection Hlast as <-. simpl. rewrite Hname.
      by apply assign_proto_absent.
Qed.

(** X13. Undoing a write before the tick does not cancel it.  When a
    changed value is written and then a value whose raw form is the one the
    route already holds, both writes are accepted and notified, and the
    tick still makes a router call, whose query is the query the route
    already has. *)
Theorem undone_write_is_still_committed c st w (y x : T) :
  ticks w = [] ->
  queriesQueue w (router c) = JsMap.empty ->
  query (route_of w (route c)) !! name c = Some (cachedRawValue st) ->
  transformToQuery c x = cachedRawValue st ->
  areQueryValuesEqual (transformToQuery c y) (cachedRawValue st) = false ->
  let s := writes c [y; x] (st, w) in
  triggers (fst s) = triggers st + 2 /\
  calls (run_tick (snd s)) =
    calls w ++
      [{| call_router := router c; call_mode := mode c;
          call_to :=
            {| to_params := params (route_of w (route c));
               to_query := query (route_of w (route c));
               to_hash := hash (route_of w (route c)) |} |}].
Proof.
  intros Ht Hq Hroute Hx Hy. cbv zeta.
  assert (Htr : triggers (fst (writes c [y; x] (st, w))) = triggers st + 2).
  { unfold writes. cbn [fold_left]. rewrite (set_changed _ _ _ _ Hy).
    rewrite set_changed.
    - simpl. lia.
    - simpl. rewrite Hx. apply areQueryValuesEqual_false.
      apply areQueryValuesEqual_false in Hy. congruence. }
  split; [exact Htr |].
  destruct (writes_written c st w [y; x] Hq 0 (st, w)
              (written_start c st w Ht)) as (n & Hn).
  destruct (written_tick c st w n _ Hn) as [Hcalls _].
  { destruct Hn as (Hn & _). lia. }
  assert (Hraw : cachedRawValue (fst (writes c [y; x] (st, w)))
                 = cachedRawValue st).
  { unfold writes. cbn [fold_left].
    destruct (set c y (st, w)) as [st1 w1].
    by rewrite set_cachedRawValue. }
  rewrite Hcalls, Hraw, assign_own by (by rewrite Hroute).
  by rewrite (insert_id _ _ _ Hroute).
Qed.

(** X14. The flush reads the route when it runs, not when the write was
    made.  Let the host change the route objects in any way between an
    accepted write and the tick, the pending maps, the waiting callbacks
    and the calls made so far being as the write left them.  Then the one
    call of the tick has the params and the hash the route has at the
    tick, and its query is the query the route has at the tick after the
    assignment of the raw value to the name: every other key is as in that
    query, and the name, unless it is ["__proto__"], holds the raw
    value. *)
Theorem flush_reads_route_at_tick c st w x (w2 : World) :
  ticks w = [] ->
  queriesQueue w (router c) = JsMap.empty ->
  areQueryValuesEqual (transformToQuery c x) (cachedRawValue st) = false ->
  _queue w2 = _queue (snd (set c x (st, w))) ->
  ticks w2 = ticks (snd (set c x (st, w))) ->
  calls w2 = calls (snd (set c x (st, w))) ->
  calls (run_tick w2) =
    calls w ++
      [{| call_router := router c; call_mode := mode c;
          call_to :=
            {| to_params := params (route_of w2 (route c));
               to_query := assign (name c) (transformToQuery c x)
                             (query (route_of w2 (route c)));
               to_hash := hash (route_of w2 (route c)) |} |}] /\
  (forall to, last (calls (run_tick w2)) = Some to ->
     forall k, k <> name c ->
       to_query (call_to to) !! k = query (route_of w2 (route c)) !! k) /\
  (name c <> "__proto__" ->
   forall to, last (calls (run_tick w2)) = Some to ->
     to_query (call_to to) !! name c = Some (transformToQuery c x)).
Proof.
  intros Ht Hq Hne Hqueue2 Hticks2 Hcalls2.
  rewrite (set_changed _ _ _ _ Hne) in Hqueue2, Hticks2, Hcalls2.
  cbn [snd nextTick with_queue _queue ticks calls] in Hqueue2, Hticks2, Hcalls2.
  rewrite Ht in Hticks2. rewrite Hq in Hqueue2. simpl in Hticks2.
  assert (Hqueue : queriesQueue w2 (router c) =
                   [(name c, transformToQuery c x)]).
  { unfold queriesQueue. rewrite Hqueue2. by rewrite lookup_insert_eq. }
  assert (Hcalls : calls (run_tick w2) =
    calls w ++
      [{| call_router := router c; call_mode := mode c;
          call_to :=
            {| to_params := params (route_of w2 (route c));
               to_query := assign (name c) (transformToQuery c x)
                             (query (route_of w2 (route c)));
               to_hash := hash (route_of w2 (route c)) |} |}]).
  { rewrite (run_tick_one_router w2 (flush_of c) [] Hticks2);
      [| constructor | simpl; by rewrite Hqueue].
    cbn [flush_of flush_router flush_route flush_mode].
    rewrite Hqueue. unfold overlay, JsMap.entries.
    cbn [fold_left router_call with_queue stop_ticks calls].
    by rewrite Hcalls2. }
  rewrite Hcalls. split; [done |]. split.
  - intros to Hlast k Hk. rewrite last_snoc in Hlast.
    injection Hlast as <-. simpl. by apply assign_lookup_ne.
  - intros Hname to Hlast. rewrite last_snoc in Hlast.
    injection Hlast as <-. simpl. rewrite assign_plain by done.
    apply lookup_insert_eq.
Qed.
End WriteSequences.

(** ** The scheduler and the pending maps *)

Lemma flush_own_queue (cb : Flush) (w : World) :
  queriesQueue (flush cb w) (flush_router cb) = JsMap.empty.
Proof.
  destruct (queriesQueue w (flush_router cb)) as [|e m] eqn:Hq.
  - by rewrite flush_empty.
  - rewrite flush_pending by (by rewrite Hq).
    rewrite queriesQueue_router_call. apply queriesQueue_with_queue.
Qed.

(** After a list of callbacks has run, the map of a router is empty when
    one of the callbacks belonged to it, and untouched when none did. *)
Lemma flush_all_queue (r : nat) (cbs : list Flush) :
  forall w : World,
    queriesQueue (fold_left (fun w cb => flush cb w) cbs w) r =
      if existsb (fun cb => Nat.eqb (flush_router cb) r) cbs
      then JsMap.empty else queriesQueue w r.
Proof.
  induction cbs as [|cb cbs IH]; intros w; simpl; [done |].
  rewrite IH. destruct (Nat.eqb_spec (flush_router cb) r) as [<-|Hne]; simpl.
  - rewrite flush_own_queue. by destruct (existsb _ cbs).
  - by rewrite flush_other_queue.
Qed.

Lemma flush_all_nothing_pending (cbs : list Flush) :
  forall w : World,
    (forall cb, cb ∈ cbs -> queriesQueue w (flush_router cb) = JsMap.empty) ->
    fold_left (fun w cb => flush cb w) cbs w = w.
Proof.
  induction cbs as [|cb cbs IH]; intros w Hall; simpl; [done |].
  rewrite flush_empty by (apply Hall; by left).
  apply IH. intros cb' Hin. apply Hall. by right.
Qed.

Lemma stop_ticks_id (w : World) : ticks w = [] -> stop_ticks w = w.
Proof. destruct w. simpl. by intros ->. Qed.

(** X9. Every operation keeps the shared world well formed: the keys of
    each pending map stay distinct and a router with pending writes always
    has a callback waiting.  Hence a tick leaves no pending write behind:
    after it every pending map is empty. *)
Theorem world_invariant :
  (forall w : World, _queue w = ∅ -> World_ok w) /\
  (forall (Env T : Type) (J : JsValue T) (name : string)
          (dflt : MaybeRefOrGetter Env T) (options : RouteQueryOptions T)
          (getCurrentScope : bool) (w : World),
     World_ok w ->
     World_ok (snd (useRouteQuery name dflt options getCurrentScope w))) /\
  (forall (Env T : Type) (J : JsValue T) (c : Config Env T) (x : T)
          (st : Cache T) (w : World),
     World_ok w -> World_ok (snd (set c x (st, w)))) /\
  (forall (Env T : Type) (J : JsValue T) (c : Config Env T) (v : QueryValue)
          (st : Cache T) (w : World),
     World_ok w -> World_ok (snd (watch_callback c v (st, w)))) /\
  (forall w : World,
     World_ok w ->
     World_ok (run_tick w) /\
     forall r, queriesQueue (run_tick w) r = JsMap.empty).
Proof.
  split; [|split; [|split; [|split]]].
  - intros w Hempty r. unfold queriesQueue. rewrite Hempty, lookup_empty.
    simpl. split; [constructor | done].
  - intros Env T J name dflt options scope w Hok r.
    destruct (useRouteQuery_untouched name dflt options scope w)
      as (_ & Hticks & _).
    rewrite useRouteQuery_queriesQueue, Hticks. apply Hok.
  - intros Env T J c x st w Hok r.
    destruct (areQueryValuesEqual (transformToQuery c x) (cachedRawValue st))
      eqn:Egate.
    + rewrite (set_equal _ _ _ _ Egate). apply Hok.
    + rewrite (set_changed _ _ _ _ Egate). cbn [snd].
      destruct (Hok r) as [Hnd Hcb].
      destruct (decide (router c = r)) as [<-|Hne].
      * split.
        -- unfold queriesQueue at 1. simpl. rewrite lookup_insert_eq. simpl.
           apply JsMap_set_NoDup, Hok.
        -- intros _. exists (flush_of c). split; [|done].
           simpl. apply elem_of_app. right. by left.
      * assert (Hq : queriesQueue
                       (nextTick {| flush_router := router c;
                                    flush_route := route c;
                                    flush_mode := mode c |}
                          (with_queue (router c)
                             (JsMap.set (name c) (transformToQuery c x)
                                (queriesQueue w (router c))) w)) r
                     = queriesQueue w r).
        { unfold queriesQueue at 1. simpl. by rewrite lookup_insert_ne. }
        rewrite Hq. split; [done |]. intros Hpending.
        destruct (Hcb Hpending) as (cb & Hin & Hr).
        exists cb. split; [|done]. simpl. apply elem_of_app. by left.
  - intros Env T J c v st w Hok. by rewrite watch_callback_world.
  - intros w Hok.
    assert (Hall : forall r, queriesQueue (run_tick w) r = JsMap.empty).
    { intros r. unfold run_tick. rewrite flush_all_queue.
      destruct (existsb _ (ticks w)) eqn:Ex; [done |].
      change (queriesQueue (stop_ticks w) r) with (queriesQueue w r).
      destruct (queriesQueue w r) as [|e m] eqn:Hq; [done |].
      destruct (proj2 (Hok r)) as (cb & Hin & Hr); [by rewrite Hq |].
      assert (Htrue : existsb (fun cb => Nat.eqb (flush_router cb) r)
                        (ticks w) = true).
      { apply existsb_exists. exists cb. split.
        - by apply list_elem_of_In.
        - by apply Nat.eqb_eq. }
      congruence. }
    split; [|exact Hall]. intros r. rewrite Hall.
    split; [constructor | done].
Qed.

(** X10. A tick whose callbacks find nothing pending makes no router call
    and changes nothing but the list of waiting callbacks; and once a tick
    has run, a second tick changes nothing. *)
Theorem tick_without_pending_writes (w : World) :
  ((forall cb, cb ∈ ticks w ->
      queriesQueue w (flush_router cb) = JsMap.empty) ->
   run_tick w = stop_ticks w /\ calls (run_tick w) = calls w) /\
  run_tick (run_tick w) = run_tick w.
Proof.
  split.
  - intros Hall. unfold run_tick.
    by rewrite (flush_all_nothing_pending (ticks w) (stop_ticks w)).
  - assert (Hticks : ticks (run_tick w) = []).
    { unfold run_tick. by rewrite flush_all_ticks. }
    unfold run_tick at 1. rewrite Hticks. simpl. by apply stop_ticks_id.
Qed.

(** ** Two routers *)

Section TwoRouters.
Context {Env TA TB : Type} `{JsValue TA} `{JsValue TB}.

Lemma set_queue_other {T : Type} `{JsValue T} (c : Config Env T) (x : T)
    (st : Cache T) (w : World) (r : nat) :
  router c <> r -> queriesQueue (snd (set c x (st, w))) r = queriesQueue w r.
Proof.
  intros Hne. unfold set.
  destruct (areQueryValuesEqual _ _); [done |].
  unfold queriesQueue at 1. simpl. by rewrite lookup_insert_ne.
Qed.

Lemma set_queue_own {T : Type} `{JsValue T} (c : Config Env T) (x : T)
    (st : Cache T) (w : World) :
  areQueryValuesEqual (transformToQuery c x) (cachedRawValue st) = false ->
  queriesQueue (snd (set c x (st, w))) (router c) =
    JsMap.set (name c) (transformToQuery c x) (queriesQueue w (router c)).
Proof.
  intros Hne. rewrite (set_changed _ _ _ _ Hne).
  unfold queriesQueue at 1. simpl. by rewrite lookup_insert_eq.
Qed.

Lemma set_ticks {T : Type} `{JsValue T} (c : Config Env T) (x : T)
    (st : Cache T) (w : World) :
  areQueryValuesEqual (transformToQuery c x) (cachedRawValue st) = false ->
  ticks (snd (set c x (st, w))) = ticks w ++ [flush_of c].
Proof. intros Hne. by rewrite (set_changed _ _ _ _ Hne). Qed.

(** X11. Writes through synchronisers on different routers are not merged:
    the tick makes one call on each router, in the order of the writes, and
    the query of each call is the query of its own route after the
    assignment [newQueries[name] = raw] of the one field written through
    that router (which creates the field for every name but
    ["__proto__"]); the write made through the other router does not
    enter it. *)
Theorem routers_do_not_share (a : Config Env TA) (b : Config Env TB)
    (sa : Cache TA) (sb : Cache TB) (w : World) (xa : TA) (xb : TB) :
  router a <> router b ->
  ticks w = [] ->
  queriesQueue w (router a) = JsMap.empty ->
  queriesQueue w (router b) = JsMap.empty ->
  areQueryValuesEqual (transformToQuery a xa) (cachedRawValue sa) = false ->
  areQueryValuesEqual (transformToQuery b xb) (cachedRawValue sb) = false ->
  calls (run_tick (snd (set b xb (sb, snd (set a xa (sa, w)))))) =
    calls w ++
      [{| call_router := router a; call_mode := mode a;
          call_to :=
            {| to_params := params (route_of w (route a));
               to_query := assign (name a) (transformToQuery a xa)
                             (query (route_of w (route a)));
               to_hash := hash (route_of w (route a)) |} |};
       {| call_router := router b; call_mode := mode b;
          call_to :=
            {| to_params := params (route_of w (route b));
               to_query := assign (name b) (transformToQuery b xb)
                             (query (route_of w (route b)));
               to_hash := hash (route_of w (route b)) |} |}].
Proof.
  intros Hr Ht Hqa Hqb Ha Hb.
  set (w1 := snd (set a xa (sa, w))).
  set (w2 := snd (set b xb (sb, w1))).
  assert (Hticks : ticks w2 = [flush_of a; flush_of b]).
  { subst w2 w1. rewrite (set_ticks b _ _ _ Hb), (set_ticks a _ _ _ Ha).
    by rewrite Ht. }
  assert (Hq2a : queriesQueue w2 (router a)
                 = [(name a, transformToQuery a xa)]).
  { subst w2 w1. rewrite set_queue_other by done.
    by rewrite (set_queue_own a _ _ _ Ha), Hqa. }
  assert (Hq2b : queriesQueue w2 (router b)
                 = [(name b, transformToQuery b xb)]).
  { subst w2 w1. rewrite (set_queue_own b _ _ _ Hb).
    by rewrite set_queue_other, Hqb. }
  assert (Hcalls : calls w2 = calls w).
  { subst w2 w1. by rewrite !set_calls. }
  assert (Hroute : forall i, route_of w2 i = route_of w i).
  { intros i. subst w2 w1. by rewrite !set_route_of. }
  unfold run_tick. rewrite Hticks. cbn [fold_left].
  rewrite (flush_pending (flush_of a) (stop_ticks w2))
    by (cbn [flush_of flush_router];
        change (queriesQueue (stop_ticks w2) (router a))
          with (queriesQueue w2 (router a)); by rewrite Hq2a).
  rewrite flush_pending.
  - cbn [flush_of flush_router flush_route flush_mode].
    rewrite queriesQueue_router_call.
    rewrite queriesQueue_with_queue_ne by done.
    change (queriesQueue (stop_ticks w2)) with (queriesQueue w2).
    rewrite Hq2a, Hq2b.
    change (route_of (router_call _ _ _ _)) with (route_of w2).
    change (route_of (stop_ticks w2)) with (route_of w2).
    rewrite !Hroute.
    unfold overlay, JsMap.entries.
    cbn [fold_left router_call with_queue stop_ticks calls].
    rewrite Hcalls, <- app_assoc. done.
  - cbn [flush_of flush_router]. rewrite queriesQueue_router_call.
    rewrite queriesQueue_with_queue_ne by done.
    change (queriesQueue (stop_ticks w2)) with (queriesQueue w2).
    by rewrite Hq2b.
Qed.
End TwoRouters.

(** ** Writing after disposal *)

(** X12. Disposal does not close the synchroniser for writes.  A write to
    a torn-down instance whose raw form is not [undefined] is accepted like
    a first write: [get] returns it, it is put into the pending map and a
    callback is scheduled, while the watcher stays stopped.  A write whose
    raw form is [undefined] does nothing. *)
Theorem write_after_disposal {Env T : Type} `{JsValue T} (c : Config Env T)
    (st : Cache T) (w : World) (x : T) :
  scoped st = true ->
  (transformToQuery c x <> q_undefined ->
     let s := set c x (scope_stop st, w) in
     cachedValue (fst s) = x /\
     (x <> undefined -> forall env, get env c (fst s) = x) /\
     triggers (fst s) = S (triggers st) /\
     watching (fst s) = false /\
     queriesQueue (snd s) (router c) =
       JsMap.set (name c) (transformToQuery c x) (queriesQueue w (router c)) /\
     ticks (snd s) = ticks w ++ [flush_of c]) /\
  (transformToQuery c x = q_undefined ->
     set c x (scope_stop st, w) = (scope_stop st, w)).
Proof.
  intros Hsc.
  assert (Hstop : scope_stop st =
            dispose {| cachedValue := cachedValue st;
                       cachedRawValue := cachedRawValue st;
                       triggers := triggers st; watching := false;
                       scoped := scoped st |}).
  { unfold scope_stop. by rewrite Hsc. }
  rewrite Hstop. split.
  - intros Hraw. cbv zeta.
    assert (Hgate : areQueryValuesEqual (transformToQuery c x)
              (cachedRawValue
                 (dispose {| cachedValue := cachedValue st;
                             cachedRawValue := cachedRawValue st;
                             triggers := triggers st; watching := false;
                             scoped := scoped st |})) = false).
    { simpl. by apply areQueryValuesEqual_false. }
    rewrite (set_changed _ _ _ _ Hgate). cbn [fst snd].
    split; [done |]. split; [intros Hx env; by apply get_cached |].
    split; [done |]. split; [done |]. split; [|done].
    unfold queriesQueue at 1. simpl. by rewrite lookup_insert_eq.
  - intros Hraw. apply set_equal. simpl. rewrite Hraw.
    apply areQueryValuesEqual_refl.
Qed.

(** ** The further properties at the sample synchronisers *)

(** [search] is created on a query that holds [search: "vue3"]. *)
Lemma constructor_seeds_cache_witness :
  query (route_of Sample.world0 0) !! "search" = Some (q_string "vue3") /\
  cachedRawValue Sample.search_cache = q_string "vue3" /\
  get tt Sample.search_config Sample.search_cache = q_string "vue3" /\
  set Sample.search_config (q_string "vue3")
      (Sample.search_cache, Sample.search_world)
    = (Sample.search_cache, Sample.search_world).
Proof.
  split; [reflexivity |].
  destruct (constructor_seeds_cache (Env := unit) "search"
              (Plain (q_string "default"))
              (Sample.options None identity_transform) true Sample.world0
              Sample.search_config Sample.search_cache Sample.search_world
              (q_string "vue3"))
    as (Hraw & _ & Hget & _ & Hset); [reflexivity | reflexivity |].
  split; [exact Hraw |]. split.
  - apply Hget. discriminate.
  - apply Hset. reflexivity.
Defined.

(** [b] is created on the router that already has the map made for [a];
    [page] is created outside a scope. *)
Lemma constructor_frame_witness :
  (_queue (snd Sample.a) !! router Sample.b_config = Some JsMap.empty /\
   _queue Sample.world_ab = _queue (snd Sample.a)) /\
  scope_stop Scenario.page_cache = Scenario.page_cache.
Proof.
  split.
  - split; [reflexivity |].
    destruct (constructor_frame (Env := unit) "b" (Plain (q_string ""))
                (Sample.options (Some replace) identity_transform) true
                (snd Sample.a))
      as (_ & _ & _ & _ & _ & Hkept & _).
    apply (Hkept JsMap.empty). reflexivity.
  - destruct (constructor_frame (Env := nat) "page"
                (Getter (fun n : nat =>
                   if Nat.eqb n 0 then q_string "1" else q_string "2"))
                (Sample.options None identity_transform) false Sample.world0)
      as (_ & _ & _ & _ & _ & _ & _ & _ & _ & Hstop).
    apply Hstop. reflexivity.
Defined.

(** [a] has default [""] and is created on a query without [a]; [""] is
    written to it. *)
Lemma write_on_absent_name_is_committed_witness :
  query (route_of Sample.world0 0) !! "a" = None /\
  Object_prototype "a" = None /\
  ticks Sample.world0 = [] /\
  queriesQueue Sample.world0 (router Sample.a_config) = JsMap.empty /\
  transformToQuery Sample.a_config (q_string "") <> q_undefined /\
  exists to : RouteLocation,
    calls (run_tick (snd (set Sample.a_config (q_string "")
                            (Sample.a_cache, snd Sample.a))))
      = [{| call_router := 0; call_mode := push; call_to := to |}] /\
    to_query to !! "a" = Some (q_string "").
Proof.
  split; [reflexivity |]. split; [reflexivity |]. split; [reflexivity |].
  split; [reflexivity |]. split; [discriminate |].
  destruct (write_on_absent_name_is_committed (Env := unit) "a"
              (Plain (q_string "")) (Sample.options None identity_transform)
              true Sample.world0 Sample.a_config Sample.a_cache (snd Sample.a)
              (q_string ""))
    as (Hcalls & _);
    [reflexivity | reflexivity | reflexivity | reflexivity | reflexivity
    | discriminate |].
  eexists. split; [exact Hcalls |]. reflexivity.
Defined.

(** The route changes [search] to ["vue"]. *)
Lemma external_change_propagates_witness :
  areQueryValuesEqual (q_string "vue") (cachedRawValue Sample.search_cache)
    = false /\
  get tt Sample.search_config
    (fst (watch_callback Sample.search_config (q_string "vue")
            (Sample.search_cache, Sample.search_world)))
    = q_string "vue".
Proof.
  split; [reflexivity |].
  apply (proj1 (external_change_propagates Sample.search_config
                  (q_string "vue") Sample.search_cache Sample.search_world tt
                  eq_refl));
    discriminate.
Defined.

(** The route changes [search] to ["vue"], then ["vue"] is written. *)
Lemma external_change_is_not_written_back_witness :
  transformToQuery Sample.search_config (q_string "vue") = q_string "vue" /\
  set Sample.search_config (q_string "vue")
      (watch_callback Sample.search_config (q_string "vue")
         (Sample.search_cache, Sample.search_world))
    = watch_callback Sample.search_config (q_string "vue")
        (Sample.search_cache, Sample.search_world).
Proof.
  split; [reflexivity |].
  apply (proj1 (proj2 (external_change_is_not_written_back
                         Sample.search_config (q_string "vue")
                         Sample.search_cache Sample.search_world
                         (q_string "vue")))).
  reflexivity.
Defined.

(** [a.value = "1"; a.value = "2"], then the tick. *)
Lemma writes_coalesce_witness :
  ticks Sample.world_ab = [] /\
  queriesQueue Sample.world_ab (router Sample.a_config) = JsMap.empty /\
  triggers (fst (writes Sample.a_config ([q_string "1"] ++ [q_string "2"])
                   (Sample.a_cache, Sample.world_ab))) = 2 /\
  exists to : RouteLocation,
    calls (run_tick
             (snd (writes Sample.a_config ([q_string "1"] ++ [q_string "2"])
                     (Sample.a_cache, Sample.world_ab))))
      = [{| call_router := 0; call_mode := push; call_to := to |}] /\
    to_query to !! "a" = Some (q_string "2").
Proof.
  split; [reflexivity |]. split; [reflexivity |]. split; [reflexivity |].
  destruct (writes_coalesce Sample.a_config Sample.a_cache Sample.world_ab
              [q_string "1"] (q_string "2") eq_refl eq_refl)
    as (_ & _ & _ & _ & Hcommit).
  destruct Hcommit as [Hcalls _]; [discriminate |].
  eexists. split; [exact Hcalls |]. reflexivity.
Defined.

(** The sample world from its start to the tick after both writes. *)
Lemma world_invariant_witness :
  _queue Sample.world0 = ∅ /\
  World_ok Sample.world_a1_b2 /\
  World_ok (run_tick Sample.world_a1_b2) /\
  queriesQueue (run_tick Sample.world_a1_b2) 0 = JsMap.empty.
Proof.
  destruct world_invariant as (Hstart & Hnew & Hset & _ & Htick).
  assert (Hok : World_ok Sample.world_a1_b2).
  { apply (Hset unit QueryValue _ Sample.b_config (q_string "2")
             Sample.b_cache Sample.world_a1).
    apply (Hset unit QueryValue _ Sample.a_config (q_string "1")
             Sample.a_cache Sample.world_ab).
    apply (Hnew unit QueryValue _ "b" (Plain (q_string ""))
             (Sample.options (Some replace) identity_transform) true
             (snd Sample.a)).
    apply (Hnew unit QueryValue _ "a" (Plain (q_string ""))
             (Sample.options None identity_transform) true Sample.world0).
    apply Hstart. reflexivity. }
  split; [reflexivity |]. split; [exact Hok |].
  destruct (Htick Sample.world_a1_b2 Hok) as [Hok' Hempty].
  split; [exact Hok' | exact (Hempty 0)].
Defined.

(** The world after the first of the two waiting callbacks has run: both
    are still on the scheduler's list and the map is empty. *)
Lemma tick_without_pending_writes_witness :
  (forall cb,
     cb ∈ ticks Sample.world_a1_b2 ->
     queriesQueue (flush {| flush_router := 0; flush_route := 0;
                            flush_mode := push |} Sample.world_a1_b2)
       (flush_router cb) = JsMap.empty) /\
  calls (run_tick (flush {| flush_router := 0; flush_route := 0;
                            flush_mode := push |} Sample.world_a1_b2))
    = calls (flush {| flush_router := 0; flush_route := 0;
                      flush_mode := push |} Sample.world_a1_b2).
Proof.
  assert (Hall : forall cb,
    cb ∈ ticks Sample.world_a1_b2 ->
    queriesQueue (flush {| flush_router := 0; flush_route := 0;
                           flush_mode := push |} Sample.world_a1_b2)
      (flush_router cb) = JsMap.empty).
  { intros cb Hin.
    apply elem_of_cons in Hin as [->|Hin]; [reflexivity |].
    apply elem_of_cons in Hin as [->|Hin]; [reflexivity |].
    by apply elem_of_nil in Hin. }
  split; [exact Hall |].
  apply (proj1 (tick_without_pending_writes
                  (flush {| flush_router := 0; flush_route := 0;
                            flush_mode := push |} Sample.world_a1_b2))).
  exact Hall.
Defined.

(** [a] on router 0 writes ["1"], [c] on router 1 writes ["3"]. *)
Lemma routers_do_not_share_witness :
  router Sample.a_config <> router Scenario.c_config /\
  ticks Scenario.world_abc = [] /\
  queriesQueue Scenario.world_abc (router Sample.a_config) = JsMap.empty /\
  queriesQueue Scenario.world_abc (router Scenario.c_config) = JsMap.empty /\
  map call_router
    (calls (run_tick
              (snd (set Scenario.c_config (q_string "3")
                      (Scenario.c_cache,
                       snd (set Sample.a_config (q_string "1")
                              (Sample.a_cache, Scenario.world_abc)))))))
    = [0; 1].
Proof.
  split; [discriminate |]. split; [reflexivity |]. split; [reflexivity |].
  split; [reflexivity |].
  rewrite (routers_do_not_share Sample.a_config Scenario.c_config
             Sample.a_cache Scenario.c_cache Scenario.world_abc
             (q_string "1") (q_string "3"));
    [reflexivity | discriminate | reflexivity | reflexivity | reflexivity
    | reflexivity | reflexivity].
Defined.

(** [search] is torn down and ["again"] is written to it. *)
Lemma write_after_disposal_witness :
  scoped Sample.search_cache = true /\
  transformToQuery Sample.search_config (q_string "again") <> q_undefined /\
  get tt Sample.search_config
    (fst (set Sample.search_config (q_string "again")
            (scope_stop Sample.search_cache, Sample.search_world)))
    = q_string "again".
Proof.
  split; [reflexivity |]. split; [discriminate |].
  destruct (write_after_disposal Sample.search_config Sample.search_cache
              Sample.search_world (q_string "again") eq_refl)
    as [Haccepted _].
  destruct Haccepted as (_ & Hget & _); [discriminate |].
  apply Hget. discriminate.
Defined.

(** [search.value = "x"; search.value = "vue3"] while the route holds
    [search: "vue3"], then the tick. *)
Lemma undone_write_is_still_committed_witness :
  ticks Sample.search_world = [] /\
  queriesQueue Sample.search_world (router Sample.search_config)
    = JsMap.empty /\
  query (route_of Sample.search_world (route Sample.search_config))
    !! name Sample.search_config = Some (cachedRawValue Sample.search_cache) /\
  areQueryValuesEqual (transformToQuery Sample.search_config (q_string "x"))
    (cachedRawValue Sample.search_cache) = false /\
  triggers (fst (writes Sample.search_config [q_string "x"; q_string "vue3"]
                   (Sample.search_cache, Sample.search_world))) = 2 /\
  map (fun call => to_query (call_to call))
    (calls (run_tick
              (snd (writes Sample.search_config
                      [q_string "x"; q_string "vue3"]
                      (Sample.search_cache, Sample.search_world)))))
    = [query Sample.route0].
Proof.
  split; [reflexivity |]. split; [reflexivity |]. split; [reflexivity |].
  split; [reflexivity |].
  destruct (undone_write_is_still_committed Sample.search_config
              Sample.search_cache Sample.search_world (q_string "x")
              (q_string "vue3") eq_refl eq_refl eq_refl eq_refl eq_refl)
    as [Htriggers Hcalls].
  split; [exact Htriggers |]. rewrite Hcalls. reflexivity.
Defined.

(** [a.value = "1"], then the host puts another route object in place of
    route 0, then the tick. *)
Lemma flush_reads_route_at_tick_witness :
  ticks Sample.world_ab = [] /\
  queriesQueue Sample.world_ab (router Sample.a_config) = JsMap.empty /\
  areQueryValuesEqual (transformToQuery Sample.a_config (q_string "1"))
    (cachedRawValue Sample.a_cache) = false /\
  name Sample.a_config <> "__proto__" /\
  exists to : RouterCall,
    last (calls (run_tick Scenario.world_a1_moved)) = Some to /\
    to_hash (call_to to) = "#moved" /\
    to_query (call_to to) !! "search" = Some (q_string "vite") /\
    to_query (call_to to) !! "a" = Some (q_string "1").
Proof.
  split; [reflexivity |]. split; [reflexivity |]. split; [reflexivity |].
  split; [discriminate |].
  destruct (flush_reads_route_at_tick Sample.a_config Sample.a_cache
              Sample.world_ab (q_string "1") Scenario.world_a1_moved
              eq_refl eq_refl eq_refl eq_refl eq_refl eq_refl)
    as (Hcalls & Hother & Hname).
  eexists. split; [rewrite Hcalls; apply last_snoc |].
  split; [reflexivity |]. split; [reflexivity |].
  apply Hname; [discriminate |]. rewrite Hcalls. apply last_snoc.
Defined.

(** [a] is created while the query has no key ["a"]; [undefined] is
    written. *)
Lemma set_undefined_on_absent_name_witness :
  query (route_of Sample.world0 0) !! "a" = None /\
  Object_prototype "a" = None /\
  transformToQuery Sample.a_config undefined = q_undefined /\
  set Sample.a_config undefined (Sample.a_cache, snd Sample.a)
    = (Sample.a_cache, snd Sample.a) /\
  get tt Sample.a_config
    (fst (set Sample.a_config undefined (Sample.a_cache, snd Sample.a)))
    = q_string "".
Proof.
  split; [reflexivity |]. split; [reflexivity |]. split; [reflexivity |].
  destruct (set_undefined_on_absent_name (Env := unit) "a"
              (Plain (q_string "")) (Sample.options None identity_transform)
              true Sample.world0 Sample.a_config Sample.a_cache (snd Sample.a)
              undefined)
    as (_ & Hset & _ & _ & _ & _ & _ & Hget);
    [reflexivity | reflexivity | reflexivity | reflexivity |].
  split; [exact Hset | exact (Hget tt)].
Defined.
